(** * Ionogram records: DAT codec, merge algebra, accumulation windows

    A shallow embedding of [ion_class.py] (class [Ionogram]) and of the
    window enumeration of [process.py], followed by the properties of the
    specification that can be stated over it.

    Conventions of the embedding.
    - Python integers are [Z]; [bytes] objects are [list byte].
    - A raised exception is the [Raise] outcome of [result]; code that
      mutates an object before it may raise lives in the state-and-error
      monad [io], so the state reached at the moment of the exception is
      kept.
    - float64 values are the extended reals of [float64]: a finite value is
      an exact real number (rounding and overflow are not modelled), and
      the special values [inf], [-inf] and [nan] behave as in IEEE 754.
    - An amplitude is a Python [int] after decoding and a float after
      merging; the record is therefore polymorphic in the amplitude type
      and the codec goes through the [Sample] interface. *)

From Stdlib Require Import ZArith Reals Lra Lia.
From Stdlib.Strings Require Import Byte.
From stdpp Require Import base option list gmap strings.

Local Open Scope Z_scope.

(* ================================================================== *)
(** * Python primitives *)
(* ================================================================== *)

Inductive exn :=
| IndexError | ValueError | OverflowError | ZeroDivisionError
| AttributeError | OSError.

Inductive result (A : Type) :=
| Ok (a : A)
| Raise (e : exn).
Arguments Ok {A} a.
Arguments Raise {A} e.

#[global] Instance result_ret : MRet result := fun _ a => Ok a.
#[global] Instance result_bind : MBind result := fun _ _ f m =>
  match m with Ok a => f a | Raise e => Raise e end.

(** State-and-error monad: the state survives a raised exception. *)
Definition io (S A : Type) : Type := S → S * result A.

Definition io_ret {S A} (a : A) : io S A := fun s => (s, Ok a).
Definition io_bind {S A B} (m : io S A) (k : A → io S B) : io S B :=
  fun s => match m s with
           | (s', Ok a) => k a s'
           | (s', Raise e) => (s', Raise e)
           end.
Definition io_lift {S A} (r : result A) : io S A := fun s => (s, r).
Definition io_get {S} : io S S := fun s => (s, Ok s).
Definition io_modify {S} (f : S → S) : io S unit := fun s => (f s, Ok tt).

Notation "x <~ m ;; k" := (io_bind m (fun x => k))
  (at level 100, m at next level, right associativity).
Notation "m ;;; k" := (io_bind m (fun _ => k))
  (at level 100, right associativity).

(** [for x in l: body x] *)
Fixpoint for_each {S X} (l : list X) (body : X → io S unit) : io S unit :=
  match l with
  | [] => io_ret tt
  | x :: l' => body x ;;; for_each l' body
  end.

(** [l[i]] on a list, with Python's negative indices. *)
Definition py_axis (n i : Z) : result nat :=
  let j := if i <? 0 then i + n else i in
  if (0 <=? j) && (j <? n) then Ok (Z.to_nat j) else Raise IndexError.

Definition py_index {A} (l : list A) (i : Z) : result A :=
  j ← py_axis (Z.of_nat (length l)) i;
  match l !! j with Some x => Ok x | None => Raise IndexError end.

(** [range(n)] and [range(start, stop)] *)
Definition range2 (start stop : Z) : list Z := seqZ start (stop - start).
Definition range (n : Z) : list Z := range2 0 n.

(** [range(start, stop, step)] and [np.arange(start, stop, step)] on
    integers; a zero step raises. *)
Definition range3 (start stop step : Z) : result (list Z) :=
  if step =? 0 then Raise ValueError
  else
    let n := if 0 <? step then (stop - start + step - 1) / step
             else (start - stop - step - 1) / (- step) in
    Ok ((fun k => start + k * step) <$> seqZ 0 n).


(** [l[a:b]] for non-negative bounds. *)
Definition slice {A} (a b : nat) (l : list A) : list A :=
  take (b - a) (drop a l).

#[global] Instance byte_eq_decision : EqDecision byte := Byte.byte_eq_dec.

Definition byte_val (b : byte) : Z := Z.of_N (Byte.to_N b).
Definition byte_of (z : Z) : byte := default x00 (Byte.of_N (Z.to_N z)).

(** [int.from_bytes(bs, 'big')] *)
Definition from_bytes (bs : list byte) : Z :=
  fold_left (fun acc b => acc * 256 + byte_val b) bs 0.

(** [z.to_bytes(len, 'big')] *)
Definition to_bytes (len : nat) (z : Z) : result (list byte) :=
  if (0 <=? z) && (z <? 256 ^ Z.of_nat len)
  then Ok ((fun k => byte_of ((z / 256 ^ Z.of_nat k) mod 256))
             <$> reverse (seq 0 len))
  else Raise OverflowError.

(** [np.argmax] of a non-empty integer column: first index of the maximum. *)
Fixpoint argmax_from (best : Z) (ibest i : nat) (l : list Z) : nat :=
  match l with
  | [] => ibest
  | x :: l' => if best <? x then argmax_from x i (S i) l'
               else argmax_from best ibest (S i) l'
  end.
Definition np_argmax (l : list Z) : result nat :=
  match l with
  | [] => Raise IndexError
  | x :: l' => Ok (argmax_from x 0%nat 1%nat l')
  end.

(** [np.max] of a non-empty integer column. *)
Definition np_max (l : list Z) : result Z :=
  match l with
  | [] => Raise IndexError
  | x :: l' => Ok (fold_left Z.max l' x)
  end.

(* ================================================================== *)
(** * float64 values *)
(* ================================================================== *)

Inductive float64 :=
| Fin (r : R)
| PInf
| NInf
| NaN.

Definition fneg (x : float64) : float64 :=
  match x with
  | Fin r => Fin (- r)
  | PInf => NInf
  | NInf => PInf
  | NaN => NaN
  end.

Definition fadd (x y : float64) : float64 :=
  match x, y with
  | NaN, _ | _, NaN => NaN
  | Fin a, Fin b => Fin (a + b)
  | PInf, NInf | NInf, PInf => NaN
  | PInf, _ | _, PInf => PInf
  | NInf, _ | _, NInf => NInf
  end.

Definition fsub (x y : float64) : float64 := fadd x (fneg y).

Definition fabs (x : float64) : float64 :=
  match x with
  | Fin r => Fin (Rabs r)
  | PInf | NInf => PInf
  | NaN => NaN
  end.

(** [x < y]; every comparison with [nan] is false. *)
Definition flt (x y : float64) : bool :=
  match x, y with
  | NaN, _ | _, NaN => false
  | Fin a, Fin b => if Rlt_dec a b then true else false
  | NInf, NInf | PInf, _ | _, NInf => false
  | NInf, _ | _, PInf => true
  end.
Definition fgt (x y : float64) : bool := flt y x.


(** [20*np.log10(x)] *)
Definition dB (x : float64) : float64 :=
  match x with
  | Fin r => if Rlt_dec 0 r then Fin (20 * (ln r / ln 10))
             else if Req_dec_T r 0 then NInf else NaN
  | PInf => PInf
  | NInf | NaN => NaN
  end.

(** [x / n] where [n] is a numpy integer: division by zero gives [inf],
    [-inf] or [nan] (with a warning), it does not raise. *)
Definition np_truediv (x : R) (n : Z) : float64 :=
  if n =? 0 then
    if Rlt_dec 0 x then PInf else if Rlt_dec x 0 then NInf else NaN
  else Fin (x / IZR n).

(** [int(x)] on a real: truncation towards zero. *)
Definition Rtrunc (r : R) : Z :=
  if Rlt_dec r 0 then (- Int_part (- r))%Z else Int_part r.

(** What the codec asks of an amplitude value. *)
Class Sample (A : Type) := {
  sample_int : A → result Z;      (* int(x.item()) *)
  sample_isnan : A → bool;        (* np.isnan(x) *)
  sample_truthy : A → bool        (* truth value, as np.any sees it *)
}.

#[global] Instance Z_Sample : Sample Z := {|
  sample_int z := Ok z;
  sample_isnan _ := false;
  sample_truthy z := negb (z =? 0)
|}.

#[global] Instance float64_Sample : Sample float64 := {|
  sample_int x :=
    match x with
    | Fin r => Ok (Rtrunc r)
    | PInf | NInf => Raise OverflowError
    | NaN => Raise ValueError
    end;
  sample_isnan x := match x with NaN => true | _ => false end;
  sample_truthy x :=
    match x with
    | Fin r => if Req_dec_T r 0 then false else true
    | _ => true
    end
|}.

(* ================================================================== *)
(** * numpy arrays of shape (rows, cols) *)
(* ================================================================== *)

(** A float64 matrix created by [np.full(shape, np.nan)]: a cell that was
    never assigned holds [nan] and is absent from [cells]. *)
Record ndarray (A : Type) := mk_ndarray {
  nrows : Z;
  ncols : Z;
  cells : gmap (Z * Z) A
}.
Arguments mk_ndarray {A}.
Arguments nrows {A}.
Arguments ncols {A}.
Arguments cells {A}.

Definition np_full {A} (rows cols : Z) : result (ndarray A) :=
  if (rows <? 0) || (cols <? 0) then Raise ValueError
  else Ok (mk_ndarray rows cols ∅).

(** [m[i, j] = x] *)
Definition np_setitem {A} (i j : Z) (x : A) : io (ndarray A) unit :=
  fun m =>
    match py_axis (nrows m) i, py_axis (ncols m) j with
    | Ok i', Ok j' =>
        (mk_ndarray (nrows m) (ncols m)
           (<[(Z.of_nat i', Z.of_nat j') := x]> (cells m)), Ok tt)
    | _, _ => (m, Raise IndexError)
    end.

(** [m[i, j]]; [None] is the [nan] of a cell never assigned. *)
Definition np_getitem {A} (m : ndarray A) (i j : Z) : result (option A) :=
  i' ← py_axis (nrows m) i;
  j' ← py_axis (ncols m) j;
  Ok (cells m !! (Z.of_nat i', Z.of_nat j')).

Definition cell_isnan `{Sample A} (c : option A) : bool :=
  match c with None => true | Some x => sample_isnan x end.

Definition cell_int `{Sample A} (c : option A) : result Z :=
  match c with None => Raise ValueError | Some x => sample_int x end.

Definition cell_truthy `{Sample A} (c : option A) : bool :=
  match c with None => true | Some x => sample_truthy x end.

(** [np.any(m)] *)
Definition np_any `{Sample A} (m : ndarray A) : bool :=
  existsb (fun i => existsb (fun j => cell_truthy (cells m !! (i, j)))
                      (range (ncols m)))
          (range (nrows m)).

(* ================================================================== *)
(** * class Ionogram *)
(* ================================================================== *)

(** The values of [self.__parameters] once the casts of
    [__parse_passport] are done: type 's' is a string, type 'd' an
    integer, type 'f' a float. *)
Record Parameters := mk_Parameters {
  p_date : string;
  p_time : string;
  p_path : string;
  p_mode : string;
  p_delay : Z;
  p_freq0 : Z;
  p_freqN : Z;
  p_chirp_rate : Z;
  p_band_width : Z;
  p_antenna : string;
  p_adc : Z;
  p_freq_step : Z;
  p_ampl_coef : Z;
  p_latitude : R;
  p_longitude : R;
  p_height : R
}.

(** [self.imaxheight] is the Python integer [0] until [readion_binary]
    replaces it by the numpy integer that [np.max] returns; the two
    divide differently by zero. *)
Inductive height_index :=
| PyInt (z : Z)
| NpInt (z : Z).

Definition height_index_val (h : height_index) : Z :=
  match h with PyInt z | NpInt z => z end.

(** Instance attributes.  [delay] is the attribute that [__eq__] reads:
    no method of the class assigns it, [None] means it is not defined.
    [ionogram_matrix = None] is the initial empty list.  The attributes
    of the plotting and filtering methods are left out. *)
Record Ionogram (A : Type) := mk_Ionogram {
  noise : list (Z * A);
  echoes : list (Z * Z * A);
  ionogram_matrix : option (ndarray A);
  first_delay : R;
  nheights : Z;
  maxheight : R;
  imaxheight : height_index;
  nfrequences : Z;
  parameters : Parameters;
  ionogram_loaded : bool;
  dheight : option float64;
  delay : option Z;
  data_passport : list byte;
  data_ionogram : list byte
}.
Arguments mk_Ionogram {A}.
Arguments noise {A}.
Arguments echoes {A}.
Arguments ionogram_matrix {A}.
Arguments first_delay {A}.
Arguments nheights {A}.
Arguments maxheight {A}.
Arguments imaxheight {A}.
Arguments nfrequences {A}.
Arguments parameters {A}.
Arguments ionogram_loaded {A}.
Arguments dheight {A}.
Arguments delay {A}.
Arguments data_passport {A}.
Arguments data_ionogram {A}.

Definition set_noise {A} (v : list (Z * A)) (s : Ionogram A) :=
  mk_Ionogram v (echoes s) (ionogram_matrix s) (first_delay s) (nheights s)
    (maxheight s) (imaxheight s) (nfrequences s) (parameters s)
    (ionogram_loaded s) (dheight s) (delay s) (data_passport s)
    (data_ionogram s).
Definition set_echoes {A} (v : list (Z * Z * A)) (s : Ionogram A) :=
  mk_Ionogram (noise s) v (ionogram_matrix s) (first_delay s) (nheights s)
    (maxheight s) (imaxheight s) (nfrequences s) (parameters s)
    (ionogram_loaded s) (dheight s) (delay s) (data_passport s)
    (data_ionogram s).
Definition set_ionogram_matrix {A} (v : option (ndarray A)) (s : Ionogram A) :=
  mk_Ionogram (noise s) (echoes s) v (first_delay s) (nheights s)
    (maxheight s) (imaxheight s) (nfrequences s) (parameters s)
    (ionogram_loaded s) (dheight s) (delay s) (data_passport s)
    (data_ionogram s).
Definition set_first_delay {A} (v : R) (s : Ionogram A) :=
  mk_Ionogram (noise s) (echoes s) (ionogram_matrix s) v (nheights s)
    (maxheight s) (imaxheight s) (nfrequences s) (parameters s)
    (ionogram_loaded s) (dheight s) (delay s) (data_passport s)
    (data_ionogram s).
Definition set_nheights {A} (v : Z) (s : Ionogram A) :=
  mk_Ionogram (noise s) (echoes s) (ionogram_matrix s) (first_delay s) v
    (maxheight s) (imaxheight s) (nfrequences s) (parameters s)
    (ionogram_loaded s) (dheight s) (delay s) (data_passport s)
    (data_ionogram s).
Definition set_maxheight {A} (v : R) (s : Ionogram A) :=
  mk_Ionogram (noise s) (echoes s) (ionogram_matrix s) (first_delay s)
    (nheights s) v (imaxheight s) (nfrequences s) (parameters s)
    (ionogram_loaded s) (dheight s) (delay s) (data_passport s)
    (data_ionogram s).
Definition set_imaxheight {A} (v : height_index) (s : Ionogram A) :=
  mk_Ionogram (noise s) (echoes s) (ionogram_matrix s) (first_delay s)
    (nheights s) (maxheight s) v (nfrequences s) (parameters s)
    (ionogram_loaded s) (dheight s) (delay s) (data_passport s)
    (data_ionogram s).
Definition set_nfrequences {A} (v : Z) (s : Ionogram A) :=
  mk_Ionogram (noise s) (echoes s) (ionogram_matrix s) (first_delay s)
    (nheights s) (maxheight s) (imaxheight s) v (parameters s)
    (ionogram_loaded s) (dheight s) (delay s) (data_passport s)
    (data_ionogram s).
Definition set_parameters {A} (v : Parameters) (s : Ionogram A) :=
  mk_Ionogram (noise s) (echoes s) (ionogram_matrix s) (first_delay s)
    (nheights s) (maxheight s) (imaxheight s) (nfrequences s) v
    (ionogram_loaded s) (dheight s) (delay s) (data_passport s)
    (data_ionogram s).
Definition set_ionogram_loaded {A} (v : bool) (s : Ionogram A) :=
  mk_Ionogram (noise s) (echoes s) (ionogram_matrix s) (first_delay s)
    (nheights s) (maxheight s) (imaxheight s) (nfrequences s) (parameters s)
    v (dheight s) (delay s) (data_passport s) (data_ionogram s).
Definition set_dheight {A} (v : option float64) (s : Ionogram A) :=
  mk_Ionogram (noise s) (echoes s) (ionogram_matrix s) (first_delay s)
    (nheights s) (maxheight s) (imaxheight s) (nfrequences s) (parameters s)
    (ionogram_loaded s) v (delay s) (data_passport s) (data_ionogram s).
Definition set_data {A} (p i : list byte) (s : Ionogram A) :=
  mk_Ionogram (noise s) (echoes s) (ionogram_matrix s) (first_delay s)
    (nheights s) (maxheight s) (imaxheight s) (nfrequences s) (parameters s)
    (ionogram_loaded s) (dheight s) (delay s) p i.

(** Class attributes. *)
Definition light_velocity : R := 300000000%R.
Definition delimeter : list byte := [x00; x00; x00; x00].
Definition cluster_flag : list byte := [x80].
Definition align : Z := 1.

Definition init_parameters : Parameters :=
  mk_Parameters "" "" "" "" 0 0 0 0 0 "" 0 0 0 0%R 0%R 0%R.

(** [Ionogram()] *)
Definition init {A} : Ionogram A :=
  mk_Ionogram [] [] None 0%R 512 0%R (PyInt 0) 512 init_parameters false
    None None [] [].

Definition echo_key {A} (e : Z * Z * A) : Z * Z := e.1.
Definition echo_freq {A} (e : Z * Z * A) : Z := e.1.1.
Definition echo_height {A} (e : Z * Z * A) : Z := e.1.2.
Definition echo_amp {A} (e : Z * Z * A) : A := e.2.

(* ------------------------------------------------------------------ *)
(** ** Decoding: [__check_new_cluster], [__parse_ionogram] *)
(* ------------------------------------------------------------------ *)

Definition check_new_cluster (value flag : list byte) : result bool :=
  r ← to_bytes (Nat.max (length (slice 0 1 value)) (length flag))
        (Z.land (from_bytes (slice 0 1 value)) (from_bytes flag));
  Ok (bool_decide (r = flag)).

(** Local variables of the decoding loop, the object being filled and
    the lines printed so far. *)
Record parse_state := mk_parse_state {
  ps_ifn_ : Z;
  ps_ifn : option Z;
  ps_self : Ionogram Z;
  ps_printed : list string
}.

(** One iteration of the loop of [__parse_ionogram], at offset [ib]. *)
Definition parse_group (ion : list byte) (ib : nat) : io parse_state unit :=
  c <~ io_lift (check_new_cluster (slice ib (ib + 2) ion) cluster_flag) ;;
  if c : bool then
    io_modify (fun st =>
      mk_parse_state
        (ps_ifn_ st + 1)
        (Some (Z.land (from_bytes (slice ib (ib + 2) ion)) 32767))
        (ps_self st)
        (if from_bytes (slice (ib + 2) (ib + 4) ion) =? 1
         then ps_printed st
         else ps_printed st ++ ["ERROR in align!"%string]))
  else
    let amp := from_bytes (slice ib (ib + 2) ion) in
    let it := from_bytes (slice (ib + 2) (ib + 4) ion) in
    io_modify (fun st =>
      let self := ps_self st in
      mk_parse_state (ps_ifn_ st) (ps_ifn st)
        (if it =? 1
         then set_noise (noise self ++ [(ps_ifn_ st, amp)]) self
         else set_echoes (echoes self ++ [(ps_ifn_ st, it, amp)]) self)
        (ps_printed st)).

(** [np.arange(0, n, 4)] *)
Definition arange4 (n : nat) : list nat :=
  (fun k => 4 * k)%nat <$> seq 0 ((n + 3) / 4).

Definition parse_loop (ion : list byte) : io parse_state unit :=
  for_each (arange4 (length ion)) (parse_group ion).

Definition parse_ionogram : io (Ionogram Z) unit :=
  fun self =>
    let '(st, r) := parse_loop (data_ionogram self)
                      (mk_parse_state (-1) None self []) in
    (ps_self st, r).

(* ------------------------------------------------------------------ *)
(** ** [__parse_passport] and [readion_binary] *)
(* ------------------------------------------------------------------ *)

Definition mode_NZ : string := "НЗ".

Section Passport.

(** The textual part of [__parse_passport]: the scan of the passport
    lines, [__parse_date_time] and the casts of the numeric fields. It
    updates the parameter table and may raise; the geometry below is
    computed from whatever table it leaves. *)
Variable scan_passport : list byte → io Parameters unit.

Definition parse_passport {A} : io (Ionogram A) unit :=
  (fun self =>
     let '(p, r) := scan_passport (data_passport self) (parameters self) in
     (set_parameters p self, r)) ;;;
  self <~ io_get ;;
  let p := parameters self in
  nf <~ io_lift (if p_freq_step p =? 0 then Raise ZeroDivisionError
                 else Ok ((p_freqN p - p_freq0 p) ÷ p_freq_step p)) ;;
  io_modify (set_nfrequences nf) ;;;
  io_modify (set_first_delay
               (IZR (p_delay p) * light_velocity / 1000 / 1000)%R) ;;;
  mh <~ io_lift
    (if p_chirp_rate p =? 0 then Raise ZeroDivisionError
     else if bool_decide (p_mode p = mode_NZ)
     then Ok (light_velocity * IZR (p_band_width p)
              / IZR (p_chirp_rate p) / 1000)%R
     else Ok (light_velocity * IZR (p_band_width p)
              / IZR (p_chirp_rate p) / 2 / 1000)%R) ;;
  io_modify (set_maxheight mh).

(** [b.find(delimeter)]: offset of the first four zero bytes. *)
Fixpoint find_delimeter (i : nat) (l : list byte) : option nat :=
  match l with
  | [] => None
  | b :: l' => if bool_decide (take 4 l = delimeter) then Some i
               else find_delimeter (S i) l'
  end.

Definition readion_binary (data : list byte) : io (Ionogram Z) unit :=
  io_modify (fun self =>
    match find_delimeter 0 data with
    | Some i => set_data (take i data) (drop (i + 4) data) self
    | None => set_data (take (length data - 1) data) (drop 3 data) self
    end) ;;;
  parse_passport ;;;
  parse_ionogram ;;;
  self <~ io_get ;;
  imax <~ io_lift (np_max (echo_height <$> echoes self)) ;;
  io_modify (set_imaxheight (NpInt imax)) ;;;
  io_modify (set_nheights (imax + 1)) ;;;
  io_modify (set_dheight
    (Some (match np_truediv (maxheight self) imax with
           | Fin q => Fin (q / 1000)
           | x => x
           end))) ;;;
  io_modify (set_ionogram_loaded true).

End Passport.

(* ------------------------------------------------------------------ *)
(** ** [get_ionogram] and [writeion] *)
(* ------------------------------------------------------------------ *)

Section Codec.
Context {A : Type} `{Sample A}.

(** The loop that fills the freshly allocated matrix. *)
Definition fill_matrix (self : Ionogram A) : io (ndarray A) unit :=
  for_each (echoes self) (fun x =>
    if echo_height x <? nheights self
    then np_setitem (echo_height x) (echo_freq x) (echo_amp x)
    else io_ret tt).

Definition recalc_matrix : io (Ionogram A) (ndarray A) :=
  fun self =>
    match np_full (nheights self) (nfrequences self) with
    | Raise e => (self, Raise e)
    | Ok m0 =>
        let '(m, r) := fill_matrix self m0 in
        (set_ionogram_matrix (Some m) self,
         match r with Ok _ => Ok m | Raise e => Raise e end)
    end.

Definition get_ionogram (recalc : bool) : io (Ionogram A) (ndarray A) :=
  fun self =>
    match ionogram_matrix self with
    | Some m => if negb (np_any m) || recalc then recalc_matrix self
                else (self, Ok m)
    | None => recalc_matrix self
    end.

Definition fwrite (bs : list byte) : io (list byte) unit :=
  io_modify (fun f => f ++ bs).

(** [noise[ifn, 1]] on [np.array(self.noise)], for [ifn >= 0]. *)
Definition noise_item (self : Ionogram A) (ifn : Z) : result A :=
  match noise self !! Z.to_nat ifn with
  | Some e => Ok e.2
  | None => Raise IndexError
  end.

(** The loops of [writeion] that write the body to the open file. *)
Definition write_body (self : Ionogram A) (amp : ndarray A)
  : io (list byte) unit :=
  for_each (range (nfrequences self)) (fun ifn =>
    b <~ io_lift (to_bytes 2 (Z.lor (ifn + 1) 32768)) ;; fwrite b ;;;
    b <~ io_lift (to_bytes 2 align) ;; fwrite b ;;;
    b <~ io_lift (x ← noise_item self ifn;
                  v ← sample_int x;
                  to_bytes 2 v) ;; fwrite b ;;;
    b <~ io_lift (to_bytes 2 align) ;; fwrite b ;;;
    for_each (range (nheights self)) (fun it =>
      c <~ io_lift (np_getitem amp it ifn) ;;
      if negb (cell_isnan c) then
        b <~ io_lift (v ← cell_int c; to_bytes 2 v) ;; fwrite b ;;;
        b <~ io_lift (to_bytes 2 it) ;; fwrite b
      else io_ret tt)).

Inductive node :=
| File (content : list byte)
| Dir.

Record outcome := mk_outcome {
  out_self : Ionogram A;
  out_files : gmap string node;
  out_printed : list string;
  out_raised : option exn
}.

Definition isfile (fs : gmap string node) (name : string) : bool :=
  match fs !! name with Some (File _) => true | _ => false end.

(** [get_passport] followed by [encode('cp866')]. *)
Variable passport_bytes : Parameters → result (list byte).

Definition writeion (filename : option string) (rewrite : bool)
    (self : Ionogram A) (fs : gmap string node) : outcome :=
  if negb (ionogram_loaded self) then
    mk_outcome self fs ["Ionogram is empty!"%string] None
  else
    match filename with
    | None =>
        mk_outcome self fs
          ["You should indicate ionogram filename to write!"%string] None
    | Some name =>
        if isfile fs name && negb rewrite then
          mk_outcome self fs ["Destination file already exists!"%string]
            None
        else
          match fs !! name with
          | Some Dir => mk_outcome self fs [] (Some OSError)
          | _ =>
              match passport_bytes (parameters self) with
              | Raise e =>
                  mk_outcome self (<[name := File []]> fs) [] (Some e)
              | Ok p =>
                  let f0 := p ++ delimeter in
                  match get_ionogram false self with
                  | (self', Raise e) =>
                      mk_outcome self' (<[name := File f0]> fs) []
                        (Some e)
                  | (self', Ok amp) =>
                      let '(f, r) := write_body self' amp f0 in
                      mk_outcome self' (<[name := File f]> fs) []
                        (match r with Ok _ => None | Raise e => Some e end)
                  end
              end
          end
    end.

End Codec.

(* ------------------------------------------------------------------ *)
(** ** [__eq__], [__ne__] *)
(* ------------------------------------------------------------------ *)

(** [self.maxheight / self.imaxheight] *)
Definition height_ratio {A} (self : Ionogram A) : result float64 :=
  match imaxheight self with
  | PyInt z => if z =? 0 then Raise ZeroDivisionError
               else Ok (Fin (maxheight self / IZR z))
  | NpInt z => Ok (np_truediv (maxheight self) z)
  end.

(** [self.delay] *)
Definition getattr_delay {A} (self : Ionogram A) : result Z :=
  match delay self with
  | Some d => Ok d
  | None => Raise AttributeError
  end.

Definition __eq__ {A B} (self : Ionogram A) (other : Ionogram B)
  : result bool :=
  let res := true in
  let res := if bool_decide (length (noise self) ≠ length (noise other))
             then false else res in
  let res := if bool_decide (p_freq0 (parameters self)
                             ≠ p_freq0 (parameters other))
             then false else res in
  let res := if bool_decide (p_freqN (parameters self)
                             ≠ p_freqN (parameters other))
             then false else res in
  let res := if bool_decide (p_freq_step (parameters self)
                             ≠ p_freq_step (parameters other))
             then false else res in
  q1 ← height_ratio self;
  q2 ← height_ratio other;
  let res := if fgt (fabs (fsub q1 q2)) (Fin (1 / 100)) then false else res in
  d1 ← getattr_delay self;
  d2 ← getattr_delay other;
  let res := if bool_decide (d1 ≠ d2) then false else res in
  Ok res.

Definition __ne__ {A B} (self : Ionogram A) (other : Ionogram B)
  : result bool :=
  b ← __eq__ self other; Ok (negb b).

(* ------------------------------------------------------------------ *)
(** ** [__truediv__] *)
(* ------------------------------------------------------------------ *)

Definition __truediv__ (self : Ionogram float64) (scalar : float64)
  : result (Ionogram float64) :=
  let c := self in
  index_max ← np_argmax (echo_height <$> echoes c);
  let c :=
    set_noise
      ((fun e : Z * float64 =>
          let v := fsub e.2 (dB scalar) in
          (e.1, if flt v (Fin 0) then Fin 0%R else v)) <$> noise c) c in
  let c :=
    set_echoes
      (imap (fun i (e : Z * Z * float64) =>
               let v := if bool_decide (i ≠ index_max)
                        then fsub (echo_amp e) (dB scalar)
                        else Fin 1 in
               (echo_key e, if flt v (Fin 0) then NaN else v))
            (echoes c)) c in
  Ok c.

(* ------------------------------------------------------------------ *)
(** ** [__iadd__], [__add__] *)
(* ------------------------------------------------------------------ *)






(** [get_dimension] *)
Definition get_dimension {A} (self : Ionogram A) : Z :=
  if height_index_val (imaxheight self) >? 512 then 1024 else 512.

(* ================================================================== *)
(** * process.py: the window jobs of [main] *)
(* ================================================================== *)

Definition job : Type := Z * Z * Z * Z * Z * Z.

(** The nested loops of [main] that fill [args]. [date_from] and
    [date_to] are the lists read from the environment, [dm] the window
    size in minutes. *)
Definition main_args (date_from date_to : list Z) (dm : Z)
  : io (list job) unit :=
  y0 <~ io_lift (py_index date_from 0) ;;
  y1 <~ io_lift (py_index date_to 0) ;;
  for_each (range2 y0 (y1 + 1)) (fun year =>
    m0 <~ io_lift (py_index date_from 1) ;;
    m1 <~ io_lift (py_index date_to 1) ;;
    for_each (range2 m0 (m1 + 1)) (fun month =>
      d0 <~ io_lift (py_index date_from 2) ;;
      d1 <~ io_lift (py_index date_to 2) ;;
      for_each (range2 d0 (d1 + 1)) (fun day =>
        for_each (range2 0 24) (fun h =>
          ms <~ io_lift (range3 0 60 dm) ;;
          for_each ms (fun m =>
            io_modify (fun args =>
              args ++ [(year, month, day, h, m, m + dm)])))))).

(* ================================================================== *)
(** * Notions used to state the properties *)
(* ================================================================== *)

(** A group is a cluster header when the top bit of its first byte is
    set. *)
Definition is_header (g : list byte) : bool :=
  match g with
  | b :: _ => 128 <=? byte_val b
  | [] => false
  end.

(** The effect of one decoding iteration, as a function of the group
    [ion[ib:ib+4]] alone. *)
Definition group_step (g : list byte) (st : parse_state) : parse_state :=
  if is_header g then
    mk_parse_state (ps_ifn_ st + 1)
      (Some (Z.land (from_bytes (take 2 g)) 32767))
      (ps_self st)
      (if from_bytes (drop 2 g) =? 1 then ps_printed st
       else ps_printed st ++ ["ERROR in align!"%string])
  else
    let amp := from_bytes (take 2 g) in
    let it := from_bytes (drop 2 g) in
    let self := ps_self st in
    mk_parse_state (ps_ifn_ st) (ps_ifn st)
      (if it =? 1
       then set_noise (noise self ++ [(ps_ifn_ st, amp)]) self
       else set_echoes (echoes self ++ [(ps_ifn_ st, it, amp)]) self)
      (ps_printed st).

(** The groups of a body, in file order; the last one may be short. *)
Definition groups (ion : list byte) : list (list byte) :=
  (fun ib => slice ib (ib + 4) ion) <$> arange4 (length ion).

(** Number of cluster headers among the groups of a body. *)
Definition headers (ion : list byte) : nat :=
  length (filter (fun g => is_header g = true) (groups ion)).

(** Decoding a body into a fresh object. *)
Definition decode (body : list byte) : Ionogram Z :=
  (parse_ionogram (set_data [] body init)).1.

(** What decoding keeps of its state as far as the samples go: the
    running cluster counter, the noise list and the echo list. *)
Definition samples : Type := Z * list (Z * Z) * list (Z * Z * Z).

Definition samples_of (st : parse_state) : samples :=
  (ps_ifn_ st, noise (ps_self st), echoes (ps_self st)).

Definition samples_step (v : samples) (g : list byte) : samples :=
  let '(k, ns, es) := v in
  if is_header g then (k + 1, ns, es)
  else if from_bytes (drop 2 g) =? 1
       then (k, ns ++ [(k, from_bytes (take 2 g))], es)
       else (k, ns, es ++ [(k, from_bytes (drop 2 g), from_bytes (take 2 g))]).

(** The body of the decoding scenario: a cluster header carrying
    frequency index 1 with the alignment constant, a noise group
    (amplitude 5, height index 1) and an echo group (amplitude 42 at
    height index 10). *)
Definition scenario_body : list byte :=
  [x80; x01; x00; x01;  x00; x05; x00; x01;  x00; x2a; x00; x0a].

(** A passport scan that leaves a fixed table, and a small file: an empty
    passport, the delimiter and the scenario body. *)
Definition sample_parameters : Parameters :=
  mk_Parameters "01.01.2020" "00:00:00" "Irkutsk" "НЗ" 0 4000 30000 500
    1000 "A1" 1 50 1 52%R 104%R 0%R.

Definition sample_scan : list byte → io Parameters unit :=
  fun _ _ => (sample_parameters, Ok tt).

Definition sample_file : list byte := delimeter ++ scenario_body.

(** The amplitude that scalar division gives to an echo that is not the
    reference one: reduced by [d] decibels, and marked missing ([nan])
    when the result is negative. *)
Definition reduced (d : R) (v : float64) : float64 :=
  let v' := fsub v (Fin d) in if flt v' (Fin 0) then NaN else v'.

(** [20*log10(k)] for a positive real [k]. *)
Definition decibels (k : R) : R := (20 * (ln k / ln 10))%R.

(** Two echoes at heights 10 and 20; the stronger one is the lower. *)
Definition two_echoes : Ionogram float64 :=
  set_echoes [(0, 10, Fin 50); (0, 20, Fin 30)] init.









(** What every decoded sample list satisfies when the running cluster
    counter is [k]: frequency indices lie between -1 and [k] and never
    decrease along the list, amplitudes are below 32768, height indices
    fit 16 bits, and no echo has height index 1. *)
Definition noise_inv (k : Z) (ns : list (Z * Z)) : Prop :=
  Forall (fun e => -1 ≤ e.1 ≤ k ∧ 0 ≤ e.2 < 32768) ns
  ∧ ∀ i j e e', (i ≤ j)%nat → ns !! i = Some e → ns !! j = Some e' →
      e.1 ≤ e'.1.

Definition echoes_inv (k : Z) (es : list (Z * Z * Z)) : Prop :=
  Forall (fun e => -1 ≤ echo_freq e ≤ k
                   ∧ 0 ≤ echo_amp e < 32768
                   ∧ 0 ≤ echo_height e < 65536
                   ∧ echo_height e ≠ 1) es
  ∧ ∀ i j e e', (i ≤ j)%nat → es !! i = Some e → es !! j = Some e' →
      echo_freq e ≤ echo_freq e'.

(** The cells that the loop of [get_ionogram] leaves in a matrix with
    cells [c]: every echo below [nh] overwrites its cell, in list order. *)
Definition fill_cells {A} (nh : Z) (es : list (Z * Z * A))
    (c : gmap (Z * Z) A) : gmap (Z * Z) A :=
  foldl (fun c e =>
           if echo_height e <? nh
           then <[(echo_height e, echo_freq e) := echo_amp e]> c
           else c) c es.


(** Non-negative indices within the shape. *)
Definition cell_in {A} (nh nf : Z) (e : Z * Z * A) : Prop :=
  0 ≤ echo_height e < nh ∧ 0 ≤ echo_freq e < nf.

(** A 2 x 2 geometry with one echo, and the same with an echo whose
    frequency index is outside the matrix. *)
Definition rec_small : Ionogram Z :=
  set_nheights 2 (set_nfrequences 2 (set_echoes [(1, 0, 7)] init)).

(** The two bytes of a 16-bit value, most significant first. *)
Definition bytes2 (z : Z) : list byte :=
  [byte_of (z / 256); byte_of (z `mod` 256)].

(** The groups that [writeion] writes for a Record with integral
    amplitudes: per frequency a header group, a noise group, and one
    group per filled cell of the column, by ascending height. *)
Definition noise_value (self : Ionogram Z) (ifn : Z) : Z :=
  match noise self !! Z.to_nat ifn with Some e => e.2 | None => 0 end.

Definition cell_groups (amp : ndarray Z) (ifn it : Z) : list (list byte) :=
  match cells amp !! (it, ifn) with
  | Some v => [bytes2 v ++ bytes2 it]
  | None => []
  end.

Definition cluster_groups (self : Ionogram Z) (amp : ndarray Z) (ifn : Z)
  : list (list byte) :=
  [bytes2 (Z.lor (ifn + 1) 32768) ++ bytes2 1;
   bytes2 (noise_value self ifn) ++ bytes2 1]
  ++ (range (nheights self) ≫= cell_groups amp ifn).

Definition body_groups (self : Ionogram Z) (amp : ndarray Z)
  : list (list byte) :=
  range (nfrequences self) ≫= cluster_groups self amp.

(** The echoes of one column of the matrix, by ascending height, under
    frequency index [k]. *)
Definition column_echoes (amp : ndarray Z) (nh ifn k : Z)
  : list (Z * Z * Z) :=
  range nh ≫= fun it =>
    match cells amp !! (it, ifn) with
    | Some v => [(k, it, v)]
    | None => []
    end.

(** A Record that the codec carries over: amplitudes and noise levels in
    0..32767, one noise entry per frequency index with its own index,
    echoes at distinct places inside the shape and never at height
    index 1, at most 32767 frequencies and 65536 heights, and no dense
    matrix cached yet. *)
Definition encodable (R : Ionogram Z) : Prop :=
  ionogram_matrix R = None
  ∧ 0 ≤ nfrequences R ≤ 32767
  ∧ 0 ≤ nheights R ≤ 65536
  ∧ length (noise R) = Z.to_nat (nfrequences R)
  ∧ (∀ i e, noise R !! i = Some e → e.1 = Z.of_nat i ∧ 0 ≤ e.2 < 32768)
  ∧ NoDup (echoes R).*1
  ∧ Forall (fun e => cell_in (nheights R) (nfrequences R) e
                     ∧ echo_height e ≠ 1
                     ∧ 0 ≤ echo_amp e < 32768) (echoes R).

(** One frequency, heights 0..10, noise level 5 and an echo of amplitude
    42 at height 10. *)
Definition rec_scenario : Ionogram Z :=
  set_nheights 11 (set_nfrequences 1
    (set_noise [(0, 5)] (set_echoes [(0, 10, 42)] init))).


(** Where [readion_binary] cuts the file: at the first offset where four
    zero bytes start; without such an offset [find] answers -1, and the
    passport is the file less its last byte, the body the file from
    offset 3. *)
Definition split_file (data : list byte) : list byte * list byte :=
  match find_delimeter 0 data with
  | Some i => (take i data, drop (i + 4) data)
  | None => (take (length data - 1) data, drop 3 data)
  end.



(** The window starts of one hour for a window of [dm > 0] minutes. *)
Definition windows (dm : Z) : list Z :=
  (fun k => k * dm) <$> seqZ 0 ((59 + dm) / dm).

(** The jobs of a date range, as the loops of [main] nest them. *)
Definition jobs_of (y0 m0 d0 y1 m1 d1 dm : Z) : list job :=
  range2 y0 (y1 + 1) ≫= fun year =>
  range2 m0 (m1 + 1) ≫= fun month =>
  range2 d0 (d1 + 1) ≫= fun day =>
  range2 0 24 ≫= fun h =>
  (fun m => (year, month, day, h, m, m + dm)) <$> windows dm.


(* ================================================================== *)
(** * Properties *)
(* ================================================================== *)

(** ** The loops of the monad *)

Lemma for_each_app {S X} (l1 l2 : list X) (body : X → io S unit) s :
  for_each (l1 ++ l2) body s =
  match for_each l1 body s with
  | (s', Ok _) => for_each l2 body s'
  | (s', Raise e) => (s', Raise e)
  end.
Proof.
  revert s. induction l1 as [|x l1 IH]; intros s; simpl.
  - reflexivity.
  - unfold io_bind. destruct (body x s) as [s' [[]|e]]; auto.
Qed.

Lemma for_each_pure {S X} (l : list X) (body : X → io S unit)
    (f : S → X → S) s :
  (∀ x s, x ∈ l → body x s = (f s x, Ok tt)) →
  for_each l body s = (foldl f s l, Ok tt).
Proof.
  revert s. induction l as [|x l IH]; intros s Hb; simpl.
  - reflexivity.
  - unfold io_bind. rewrite Hb by left. apply IH.
    intros y s' Hy. apply Hb. by right.
Qed.

(** ** Bytes *)

Lemma byte_val_range b : 0 ≤ byte_val b < 256.
Proof.
  unfold byte_val. pose proof (Byte.to_N_bounded b). lia.
Qed.

Lemma byte_val_of z : 0 ≤ z < 256 → byte_val (byte_of z) = z.
Proof.
  intros Hz. unfold byte_val, byte_of.
  destruct (Byte.of_N (Z.to_N z)) as [b|] eqn:E.
  - simpl. apply Byte.to_of_N in E. lia.
  - apply Byte.of_N_None_iff in E. lia.
Qed.

Lemma to_bytes_2 z :
  0 ≤ z < 65536 →
  to_bytes 2 z = Ok [byte_of (z / 256); byte_of (z mod 256)].
Proof.
  intros Hz. unfold to_bytes.
  replace (256 ^ Z.of_nat 2) with 65536 by reflexivity.
  destruct (0 <=? z) eqn:E1; [|lia].
  destruct (z <? 65536) eqn:E2; [|lia].
  simpl. repeat f_equal.
  - change (256 ^ 1) with 256. apply Z.mod_small.
    split; [apply Z.div_pos; lia | apply Z.div_lt_upper_bound; lia].
  - change (256 ^ 0) with 1. by rewrite Z.div_1_r.
Qed.

Lemma from_bytes_2 a b : from_bytes [a; b] = byte_val a * 256 + byte_val b.
Proof. unfold from_bytes. simpl. lia. Qed.

Lemma from_to_bytes_2 z bs :
  to_bytes 2 z = Ok bs → from_bytes bs = z ∧ length bs = 2%nat.
Proof.
  intros Hb.
  assert (0 ≤ z < 65536) as Hz.
  { unfold to_bytes in Hb. replace (256 ^ Z.of_nat 2) with 65536 in Hb
      by reflexivity.
    destruct (0 <=? z) eqn:E1; destruct (z <? 65536) eqn:E2;
      simpl in Hb; try discriminate; lia. }
  rewrite to_bytes_2 in Hb by done. injection Hb as <-.
  split; [|done]. rewrite from_bytes_2.
  rewrite !byte_val_of.
  - pose proof (Z.div_mod z 256). lia.
  - apply Z.mod_pos_bound. lia.
  - split; [apply Z.div_pos; lia | apply Z.div_lt_upper_bound; lia].
Qed.

(** ** Decoding, group by group *)

Lemma check_new_cluster_flag value :
  check_new_cluster value cluster_flag = Ok (is_header value).
Proof.
  destruct value as [|b v]; [reflexivity|].
  destruct b; reflexivity.
Qed.

Lemma slice_take_2 (ion : list byte) ib :
  slice ib (ib + 2) ion = take 2 (slice ib (ib + 4) ion).
Proof.
  unfold slice. replace (ib + 2 - ib)%nat with 2%nat by lia.
  replace (ib + 4 - ib)%nat with 4%nat by lia.
  by rewrite take_take.
Qed.

Lemma slice_drop_2 (ion : list byte) ib :
  slice (ib + 2) (ib + 4) ion = drop 2 (slice ib (ib + 4) ion).
Proof.
  unfold slice. replace (ib + 4 - (ib + 2))%nat with 2%nat by lia.
  replace (ib + 4 - ib)%nat with 4%nat by lia.
  rewrite skipn_firstn_comm. simpl. rewrite drop_drop.
  by replace (ib + 2)%nat with (ib + 2)%nat by lia.
Qed.

Lemma is_header_take_2 (g : list byte) : is_header (take 2 g) = is_header g.
Proof. by destruct g. Qed.

Lemma parse_group_step ion ib st :
  parse_group ion ib st = (group_step (slice ib (ib + 4) ion) st, Ok tt).
Proof.
  unfold parse_group, group_step, io_bind, io_lift, io_modify.
  rewrite check_new_cluster_flag, !slice_take_2, !slice_drop_2.
  rewrite is_header_take_2.
  by destruct (is_header _).
Qed.

Lemma parse_loop_groups ion st :
  parse_loop ion st = (foldl (fun st g => group_step g st) st (groups ion),
                       Ok tt).
Proof.
  unfold parse_loop, groups.
  rewrite (for_each_pure _ _
             (fun st ib => group_step (slice ib (ib + 4) ion) st)).
  - f_equal. generalize (arange4 (length ion)). intros l. revert st.
    induction l as [|x l IH]; intros st; simpl; [done|apply IH].
  - intros. apply parse_group_step.
Qed.

Lemma arange4_add4 n : arange4 (4 + n) = 0%nat :: (Nat.add 4 <$> arange4 n).
Proof.
  unfold arange4.
  replace ((4 + n + 3) / 4)%nat with (S ((n + 3) / 4)).
  2:{ replace (4 + n + 3)%nat with (n + 3 + 1 * 4)%nat by lia.
      rewrite Nat.div_add by lia. lia. }
  simpl. f_equal. rewrite <- fmap_S_seq, <- !list_fmap_compose.
  apply list_fmap_ext. intros _ k _. simpl. lia.
Qed.

Lemma groups_nil : groups [] = [].
Proof. reflexivity. Qed.

Lemma groups_cons4 (g rest : list byte) :
  length g = 4%nat → groups (g ++ rest) = g :: groups rest.
Proof.
  intros Hg. unfold groups. rewrite length_app, Hg, arange4_add4.
  simpl. f_equal.
  - unfold slice. rewrite drop_0. simpl. by rewrite take_app_length'.
  - rewrite <- list_fmap_compose. apply list_fmap_ext. intros _ ib _. simpl.
    unfold slice.
    replace (S (S (S (S (ib + 4)))) - S (S (S (S ib))))%nat with 4%nat by lia.
    replace (ib + 4 - ib)%nat with 4%nat by lia.
    change (S (S (S (S ib)))) with (4 + ib)%nat.
    by rewrite <- (drop_app_add g rest ib), Hg.
Qed.

Lemma groups_cons4' b0 b1 b2 b3 (rest : list byte) :
  groups (b0 :: b1 :: b2 :: b3 :: rest) = [b0; b1; b2; b3] :: groups rest.
Proof. by apply (groups_cons4 [b0; b1; b2; b3]). Qed.

(** A body made of whole groups splits where its parts are joined. *)
Lemma groups_app (pre rest : list byte) :
  (length pre `mod` 4 = 0)%nat →
  groups (pre ++ rest) = groups pre ++ groups rest.
Proof.
  remember (length pre) as n eqn:Hn. revert pre Hn.
  induction n as [n IH] using lt_wf_ind. intros pre Hn Hmod.
  destruct pre as [|b0 [|b1 [|b2 [|b3 pre']]]]; simpl in Hn; subst n;
    try done.
  simpl. rewrite !groups_cons4'. simpl. f_equal.
  apply (IH (length pre')); [lia|done|].
  replace (S (S (S (S (length pre'))))) with (length pre' + 1 * 4)%nat
    in Hmod by lia.
  by rewrite Nat.Div0.mod_add in Hmod.
Qed.

Lemma groups_concat (gs : list (list byte)) :
  Forall (fun g => length g = 4%nat) gs → groups (concat gs) = gs.
Proof.
  induction 1 as [|g gs Hg _ IH]; simpl; [done|].
  by rewrite groups_cons4, IH.
Qed.

Lemma decode_groups body :
  decode body =
  ps_self (foldl (fun st g => group_step g st)
             (mk_parse_state (-1) None (set_data [] body init) [])
             (groups body)).
Proof.
  unfold decode, parse_ionogram. simpl. by rewrite parse_loop_groups.
Qed.

(** [__parse_ionogram] never raises. *)
Lemma parse_ionogram_total self : (parse_ionogram self).2 = Ok tt.
Proof. unfold parse_ionogram. by rewrite parse_loop_groups. Qed.

Lemma samples_of_group_step g st :
  samples_of (group_step g st) = samples_step (samples_of st) g.
Proof.
  unfold samples_of, samples_step, group_step.
  destruct (is_header g); [done|].
  by destruct (from_bytes (drop 2 g) =? 1).
Qed.

Lemma samples_of_foldl gs st :
  samples_of (foldl (fun st g => group_step g st) st gs)
  = foldl samples_step (samples_of st) gs.
Proof.
  revert st. induction gs as [|g gs IH]; intros st; simpl; [done|].
  by rewrite IH, samples_of_group_step.
Qed.

Lemma decode_samples body :
  (noise (decode body), echoes (decode body))
  = let v := foldl samples_step (-1, [], []) (groups body) in (v.1.2, v.2).
Proof.
  rewrite decode_groups.
  pose proof (samples_of_foldl (groups body)
                (mk_parse_state (-1) None (set_data [] body init) [])) as Hs.
  unfold samples_of in Hs at 1. simpl in Hs.
  change (samples_of _) with ((-1, [], []) : samples) in Hs.
  by rewrite <- Hs.
Qed.

Lemma samples_counter gs v :
  (foldl samples_step v gs).1.1
  = v.1.1 + Z.of_nat (length (filter (fun g => is_header g = true) gs)).
Proof.
  revert v. induction gs as [|g gs IH]; intros [[k ns] es]; simpl; [lia|].
  rewrite IH. unfold samples_step.
  destruct (is_header g) eqn:Hh.
  - rewrite filter_cons_True by done. simpl. lia.
  - rewrite filter_cons_False by (by rewrite Hh).
    by destruct (from_bytes (drop 2 g) =? 1).
Qed.

(** Decoding only ever appends. *)
Lemma samples_extend gs v :
  ∃ ns es, (foldl samples_step v gs).1.2 = v.1.2 ++ ns
           ∧ (foldl samples_step v gs).2 = v.2 ++ es.
Proof.
  revert v. induction gs as [|g gs IH]; intros v.
  - exists [], []. simpl. by rewrite !app_nil_r.
  - change (foldl samples_step v (g :: gs))
      with (foldl samples_step (samples_step v g) gs).
    destruct (IH (samples_step v g)) as (ns' & es' & -> & ->).
    destruct v as [[k ns] es]. unfold samples_step.
    destruct (is_header g); simpl; [by eauto|].
    destruct (from_bytes (drop 2 g) =? 1); simpl;
      rewrite <- ?app_assoc; eauto.
Qed.

Lemma decode_app_samples pre rest :
  (length pre `mod` 4 = 0)%nat →
  foldl samples_step (-1, [], []) (groups (pre ++ rest))
  = foldl samples_step
      (Z.of_nat (headers pre) - 1, noise (decode pre), echoes (decode pre))
      (groups rest).
Proof.
  intros Hpre. rewrite groups_app, foldl_app by done. f_equal.
  pose proof (decode_samples pre) as Hd. simpl in Hd.
  pose proof (samples_counter (groups pre) (-1, [], [])) as Hc. simpl in Hc.
  destruct (foldl samples_step (-1, [], []) (groups pre)) as [[k ns] es].
  simpl in *. injection Hd as -> ->. unfold headers. f_equal. f_equal. lia.
Qed.

(** The sample of a non-header group that follows whole groups. *)
Lemma decode_group_after pre g post :
  (length pre `mod` 4 = 0)%nat →
  length g = 4%nat →
  check_new_cluster (slice 0 2 g) cluster_flag = Ok false →
  let k := Z.of_nat (headers pre) - 1 in
  let amp := from_bytes (slice 0 2 g) in
  let it := from_bytes (slice 2 4 g) in
  ∃ ns es,
    if it =? 1 then
      noise (decode (pre ++ g ++ post)) = noise (decode pre) ++ (k, amp) :: ns
      ∧ echoes (decode (pre ++ g ++ post)) = echoes (decode pre) ++ es
    else
      noise (decode (pre ++ g ++ post)) = noise (decode pre) ++ ns
      ∧ echoes (decode (pre ++ g ++ post))
        = echoes (decode pre) ++ (k, it, amp) :: es.
Proof.
  intros Hpre Hg Hh k amp it.
  rewrite check_new_cluster_flag in Hh. injection Hh as Hh.
  assert (slice 0 2 g = take 2 g) as E1 by (unfold slice; by rewrite drop_0).
  assert (slice 2 4 g = drop 2 g) as E2.
  { unfold slice. simpl. apply take_ge. rewrite length_drop. lia. }
  rewrite E1, is_header_take_2 in Hh.
  pose proof (decode_samples (pre ++ g ++ post)) as Hd. simpl in Hd.
  rewrite decode_app_samples, groups_cons4 in Hd by done. simpl in Hd.
  rewrite Hh in Hd. fold k in Hd.
  subst amp it. rewrite E1, E2.
  destruct (from_bytes (drop 2 g) =? 1) eqn:Hit.
  - destruct (samples_extend (groups post)
      (k, noise (decode pre) ++ [(k, from_bytes (take 2 g))],
       echoes (decode pre))) as (ns & es & H1 & H2).
    simpl in H1, H2. rewrite H1, H2 in Hd. injection Hd as -> ->.
    exists ns, es. by rewrite <- app_assoc.
  - destruct (samples_extend (groups post)
      (k, noise (decode pre),
       echoes (decode pre)
         ++ [(k, from_bytes (drop 2 g), from_bytes (take 2 g))]))
      as (ns & es & H1 & H2).
    simpl in H1, H2. rewrite H1, H2 in Hd. injection Hd as -> ->.
    exists ns, es. by rewrite <- app_assoc.
Qed.

Lemma decode_snoc_group pre g :
  (length pre `mod` 4 = 0)%nat →
  length g = 4%nat →
  check_new_cluster (slice 0 2 g) cluster_flag = Ok false →
  let k := Z.of_nat (headers pre) - 1 in
  let amp := from_bytes (slice 0 2 g) in
  let it := from_bytes (slice 2 4 g) in
  if it =? 1 then
    noise (decode (pre ++ g)) = noise (decode pre) ++ [(k, amp)]
    ∧ echoes (decode (pre ++ g)) = echoes (decode pre)
  else
    noise (decode (pre ++ g)) = noise (decode pre)
    ∧ echoes (decode (pre ++ g)) = echoes (decode pre) ++ [(k, it, amp)].
Proof.
  intros Hpre Hg Hh k amp it.
  rewrite check_new_cluster_flag in Hh. injection Hh as Hh.
  assert (slice 0 2 g = take 2 g) as E1 by (unfold slice; by rewrite drop_0).
  assert (slice 2 4 g = drop 2 g) as E2.
  { unfold slice. simpl. apply take_ge. rewrite length_drop. lia. }
  rewrite E1, is_header_take_2 in Hh.
  pose proof (decode_samples (pre ++ g)) as Hd. simpl in Hd.
  assert (groups g = [g]) as Eg.
  { rewrite <- (app_nil_r g) at 1. by rewrite groups_cons4. }
  rewrite decode_app_samples, Eg in Hd by done.
  simpl in Hd. rewrite Hh in Hd. fold k in Hd.
  subst amp it. rewrite E1, E2.
  destruct (from_bytes (drop 2 g) =? 1); simpl in Hd;
    by injection Hd as -> ->.
Qed.

(** ** Claims on decoding *)

(** C6. Decoding the scenario body gives [noise = [(0, 5)]] and
    [echoes = [(0, 10, 42)]]. In general a group that follows whole groups
    and is not a cluster header is appended to the noise list when its
    second 16-bit big-endian value is 1, and to the echo list otherwise;
    nothing else changes in the two lists. *)
Theorem C6_decode_scenario_and_rule :
  (noise (decode scenario_body) = [(0, 5)]
   ∧ echoes (decode scenario_body) = [(0, 10, 42)])
  ∧ ∀ pre g : list byte,
      (length pre `mod` 4 = 0)%nat →
      length g = 4%nat →
      check_new_cluster (slice 0 2 g) cluster_flag = Ok false →
      let amp := from_bytes (slice 0 2 g) in
      let it := from_bytes (slice 2 4 g) in
      ∃ k,
        (it = 1 →
           noise (decode (pre ++ g)) = noise (decode pre) ++ [(k, amp)]
           ∧ echoes (decode (pre ++ g)) = echoes (decode pre))
        ∧ (it ≠ 1 →
             noise (decode (pre ++ g)) = noise (decode pre)
             ∧ echoes (decode (pre ++ g))
               = echoes (decode pre) ++ [(k, it, amp)]).
Proof.
  split; [split; reflexivity|].
  intros pre g Hpre Hg Hh amp it.
  pose proof (decode_snoc_group pre g Hpre Hg Hh) as H. simpl in H.
  fold amp it in H. exists (Z.of_nat (headers pre) - 1).
  destruct (it =? 1) eqn:E.
  - apply Z.eqb_eq in E. split; [done|]. intros; lia.
  - apply Z.eqb_neq in E. split; [intros; lia|done].
Qed.

Lemma C6_witness :
  ∃ k,
    noise (decode (scenario_body ++ [x00; x07; x00; x01]))
    = noise (decode scenario_body) ++ [(k, 7)].
Proof.
  destruct (proj2 C6_decode_scenario_and_rule scenario_body
              [x00; x07; x00; x01] eq_refl eq_refl eq_refl)
    as (k & Hn & _).
  exists k. exact (proj1 (Hn eq_refl)).
Defined.

(** C9. The frequency index attached to a noise or echo sample is the
    number of cluster headers among the groups before it, minus 1: the
    15-bit value carried by those headers plays no part. In particular a
    sample that precedes every header gets frequency index -1. *)
Theorem C9_frequency_index_counts_headers (pre g post : list byte) :
  (length pre `mod` 4 = 0)%nat →
  length g = 4%nat →
  check_new_cluster (slice 0 2 g) cluster_flag = Ok false →
  let k := Z.of_nat (headers pre) - 1 in
  let amp := from_bytes (slice 0 2 g) in
  let it := from_bytes (slice 2 4 g) in
  let r := decode (pre ++ g ++ post) in
  (it = 1 → noise r !! length (noise (decode pre)) = Some (k, amp))
  ∧ (it ≠ 1 → echoes r !! length (echoes (decode pre)) = Some (k, it, amp))
  ∧ (headers pre = 0%nat → k = -1).
Proof.
  intros Hpre Hg Hh k amp it r.
  destruct (decode_group_after pre g post Hpre Hg Hh) as (ns & es & H).
  fold k amp it r in H.
  split; [|split].
  - intros E. rewrite (proj2 (Z.eqb_eq it 1) E) in H. destruct H as [-> _].
    by rewrite lookup_app_r, Nat.sub_diag.
  - intros E. rewrite (proj2 (Z.eqb_neq it 1) E) in H. destruct H as [_ ->].
    by rewrite lookup_app_r, Nat.sub_diag.
  - intros E. subst k. rewrite E. done.
Qed.

(** A header that carries frequency value 300 followed by a noise group:
    the sample gets index 0; an echo before any header gets index -1. *)
Lemma C9_witness :
  noise (decode ([x81; x2c; x00; x01] ++ [x00; x05; x00; x01] ++ []))
    !! 0%nat = Some (0, 5)
  ∧ echoes (decode ([] ++ [x00; x2a; x00; x0a] ++ scenario_body))
      !! 0%nat = Some (-1, 10, 42).
Proof.
  split.
  - exact (proj1 (C9_frequency_index_counts_headers
                    [x81; x2c; x00; x01] [x00; x05; x00; x01] []
                    eq_refl eq_refl eq_refl) eq_refl).
  - refine (proj1 (proj2 (C9_frequency_index_counts_headers
                    [] [x00; x2a; x00; x0a] scenario_body
                    eq_refl eq_refl eq_refl)) _).
    vm_compute. discriminate.
Defined.

(** ** Window jobs *)

(** C8. With [date_from = date_to = 2020-01-01] and a window of 5
    minutes, the loops of [main] build exactly 288 jobs, without raising:
    one for every hour 0..23 and every window start 0, 5, .., 55, each
    with the end minute [start + 5], and no job twice. *)
Theorem C8_window_jobs_one_day :
  let run := main_args [2020; 1; 1] [2020; 1; 1] 5 [] in
  run.2 = Ok tt
  ∧ length run.1 = 288%nat
  ∧ run.1 = (range 24 ≫= fun h =>
             (fun k => (2020, 1, 1, h, 5 * k, 5 * k + 5)) <$> range 12)
  ∧ NoDup run.1.
Proof.
  repeat split; try (vm_compute; reflexivity).
  refine (bool_decide_unpack _ _). vm_compute. exact I.
Qed.

(** ** [writeion] *)

(** C10. [writeion] on an object whose loaded flag is not set prints one
    line and returns: the files and the object are unchanged and nothing
    is raised. The same holds when the destination is an existing file
    and [rewrite] is [False]. *)
Theorem C10_writeion_noop {A} `{Sample A}
    (passport_bytes : Parameters → result (list byte))
    (self : Ionogram A) (filename : option string) (rewrite : bool)
    (fs : gmap string node) :
  (ionogram_loaded self = false →
     writeion passport_bytes filename rewrite self fs
     = mk_outcome self fs ["Ionogram is empty!"%string] None)
  ∧ (∀ name,
       filename = Some name → isfile fs name = true → rewrite = false →
       let o := writeion passport_bytes filename rewrite self fs in
       out_self o = self ∧ out_files o = fs ∧ out_raised o = None).
Proof.
  split.
  - intros Hl. unfold writeion. by rewrite Hl.
  - intros name -> Hf ->. unfold writeion. rewrite Hf. simpl.
    by destruct (ionogram_loaded self).
Qed.

Lemma C10_witness :
  writeion (fun _ => Ok []) (Some "out.dat"%string) true (@init Z) ∅
  = mk_outcome init ∅ ["Ionogram is empty!"%string] None
  ∧ (let fs : gmap string node := {["out.dat"%string := File [x01]]} in
     out_files (writeion (fun _ => Ok []) (Some "out.dat"%string) false
                  (set_ionogram_loaded true (@init Z)) fs) = fs).
Proof.
  split.
  - exact (proj1 (C10_writeion_noop (fun _ => Ok []) (@init Z)
                    (Some "out.dat"%string) true ∅) eq_refl).
  - exact (proj1 (proj2 (proj2 (C10_writeion_noop (fun _ => Ok [])
                    (set_ionogram_loaded true (@init Z))
                    (Some "out.dat"%string) false
                    {["out.dat"%string := File [x01]]})
                    "out.dat"%string eq_refl eq_refl eq_refl))).
Defined.

(** ** Passport geometry *)

(** C7. When [__parse_passport] returns normally, [maxheight] is
    [light_velocity * band_width / chirp_rate / 1000] if the mode is the
    string "НЗ", and that value divided by 2 for every other mode;
    [light_velocity] is 3.0e8. *)
Theorem C7_maxheight_by_mode {A}
    (scan_passport : list byte → io Parameters unit)
    (self self' : Ionogram A) :
  parse_passport scan_passport self = (self', Ok tt) →
  let p := parameters self' in
  let one_way := (light_velocity * IZR (p_band_width p)
                  / IZR (p_chirp_rate p) / 1000)%R in
  light_velocity = 3e8%R
  ∧ (p_mode p = mode_NZ → maxheight self' = one_way)
  ∧ (p_mode p ≠ mode_NZ → maxheight self' = (one_way / 2)%R).
Proof.
  unfold parse_passport, io_bind, io_get, io_lift, io_modify.
  destruct (scan_passport _ _) as [p [[]|e]]; [|discriminate].
  cbn [parameters set_parameters].
  destruct (p_freq_step p =? 0); [discriminate|].
  cbn [parameters set_nfrequences set_first_delay].
  destruct (p_chirp_rate p =? 0) eqn:Hc; [discriminate|].
  apply Z.eqb_neq in Hc.
  assert (IZR (p_chirp_rate p) ≠ 0%R) as Hc' by (by apply not_0_IZR).
  assert (light_velocity = 3e8%R) as Hl by (unfold light_velocity; lra).
  case_bool_decide as Hm; intros [= <-];
    cbn [parameters maxheight set_maxheight set_first_delay
         set_nfrequences set_parameters]; (split; [done|]).
  - split; [done|]. by intros [].
  - split; [done|]. intros _. by field.
Qed.

Lemma C7_witness :
  maxheight (parse_passport sample_scan (@init Z)).1
  = (light_velocity * IZR 1000 / IZR 500 / 1000)%R.
Proof.
  exact (proj1 (proj2 (C7_maxheight_by_mode sample_scan (@init Z)
                         (parse_passport sample_scan (@init Z)).1
                         eq_refl)) eq_refl).
Defined.

(** ** [__eq__] *)

Lemma group_step_delay g st :
  delay (ps_self (group_step g st)) = delay (ps_self st).
Proof.
  unfold group_step. destruct (is_header g); [done|]. simpl.
  by destruct (from_bytes (drop 2 g) =? 1).
Qed.

Lemma foldl_group_step_delay gs st :
  delay (ps_self (foldl (fun st g => group_step g st) st gs))
  = delay (ps_self st).
Proof.
  revert st. induction gs as [|g gs IH]; intros st; simpl; [done|].
  rewrite IH. apply group_step_delay.
Qed.

Lemma parse_ionogram_delay self :
  delay (parse_ionogram self).1 = delay self.
Proof.
  unfold parse_ionogram. rewrite parse_loop_groups. simpl.
  by rewrite foldl_group_step_delay.
Qed.

Lemma parse_passport_delay {A} scan (self : Ionogram A) :
  delay (parse_passport scan self).1 = delay self.
Proof.
  unfold parse_passport, io_bind, io_get, io_lift, io_modify.
  destruct (scan _ _) as [p [[]|e]]; [|done].
  cbn [parameters set_parameters].
  destruct (p_freq_step p =? 0); [done|].
  cbn [parameters set_nfrequences set_first_delay].
  destruct (p_chirp_rate p =? 0); [done|].
  by case_bool_decide.
Qed.

(** A successful [readion_binary] leaves [delay] as it was, stores a
    numpy integer in [imaxheight] and sets the loaded flag. *)
Lemma readion_binary_loaded scan data self self' :
  readion_binary scan data self = (self', Ok tt) →
  delay self' = delay self
  ∧ (∃ z, imaxheight self' = NpInt z)
  ∧ ionogram_loaded self' = true.
Proof.
  unfold readion_binary.
  unfold io_bind at 1. unfold io_modify at 1.
  set (s0 := match find_delimeter 0 data with
             | Some i => set_data (take i data) (drop (i + 4) data) self
             | None => set_data (take (length data - 1) data) (drop 3 data)
                         self
             end).
  assert (delay s0 = delay self) as H0
      by (subst s0; by destruct find_delimeter).
  unfold io_bind at 1.
  pose proof (parse_passport_delay scan s0) as H1.
  destruct (parse_passport scan s0) as [s1 [[]|e]]; [|discriminate].
  unfold io_bind at 1.
  pose proof (parse_ionogram_delay s1) as H2.
  destruct (parse_ionogram s1) as [s2 [[]|e]]; [|discriminate].
  unfold io_bind, io_get, io_lift, io_modify. simpl in *.
  destruct (np_max _) as [imax|e]; [|discriminate].
  intros [= <-]. simpl. split; [congruence|eauto].
Qed.

Lemma eq_without_delay {A B} (a : Ionogram A) (b : Ionogram B) :
  delay a = None →
  (∃ z, imaxheight a = NpInt z) →
  (∃ z, imaxheight b = NpInt z) →
  __eq__ a b = Raise AttributeError.
Proof.
  intros Hd [za Ha] [zb Hb].
  unfold __eq__, height_ratio, getattr_delay. rewrite Ha, Hb, Hd.
  reflexivity.
Qed.

(** C5 (as the code behaves). For two objects loaded by [readion_binary]
    the comparison [a == b] does not return a boolean: it reaches the
    read of [self.delay], an attribute that no method of the class
    defines, and raises [AttributeError]. *)
Theorem C5_eq_raises_on_loaded
    (scan_passport : list byte → io Parameters unit)
    (data_a data_b : list byte) (a b : Ionogram Z) :
  readion_binary scan_passport data_a init = (a, Ok tt) →
  readion_binary scan_passport data_b init = (b, Ok tt) →
  ionogram_loaded a = true ∧ ionogram_loaded b = true
  ∧ __eq__ a b = Raise AttributeError.
Proof.
  intros Ha Hb.
  destruct (readion_binary_loaded _ _ _ _ Ha) as (Hda & Hia & Hla).
  destruct (readion_binary_loaded _ _ _ _ Hb) as (Hdb & Hib & Hlb).
  split; [done|]. split; [done|]. by apply eq_without_delay.
Qed.

Lemma io_ok_eta {S A} (x : S * result A) a : x.2 = Ok a → x = (x.1, Ok a).
Proof. destruct x as [s r]. simpl. by intros ->. Qed.

Lemma C5_witness :
  __eq__ (readion_binary sample_scan sample_file init).1
         (readion_binary sample_scan sample_file init).1
  = Raise AttributeError.
Proof.
  assert ((readion_binary sample_scan sample_file init).2 = Ok tt) as H
      by reflexivity.
  exact (proj2 (proj2 (C5_eq_raises_on_loaded sample_scan sample_file
                         sample_file _ _
                         (io_ok_eta _ tt H) (io_ok_eta _ tt H)))).
Defined.
(** ** float64 facts *)

Lemma ln_10_pos : (0 < ln 10)%R.
Proof. rewrite <- ln_1. apply ln_increasing; lra. Qed.

Lemma dB_Fin_pos k : (0 < k)%R → dB (Fin k) = Fin (decibels k).
Proof. intros Hk. unfold dB. by destruct (Rlt_dec 0 k). Qed.

Lemma decibels_1 : decibels 1 = 0%R.
Proof.
  unfold decibels. rewrite ln_1. pose proof ln_10_pos. field. lra.
Qed.

Lemma flt_Fin_true a b : (a < b)%R → flt (Fin a) (Fin b) = true.
Proof. intros. simpl. by destruct (Rlt_dec a b). Qed.

Lemma flt_Fin_false a b : (b <= a)%R → flt (Fin a) (Fin b) = false.
Proof. intros. simpl. destruct (Rlt_dec a b); [lra|done]. Qed.


(** ** [np.argmax]: first index of the maximum *)

Lemma argmax_from_spec (p l : list Z) best ibest :
  p !! ibest = Some best →
  (∀ k x, p !! k = Some x → x ≤ best ∧ ((k < ibest)%nat → x < best)) →
  let j := argmax_from best ibest (length p) l in
  ∃ m, (p ++ l) !! j = Some m
       ∧ ∀ k x, (p ++ l) !! k = Some x → x ≤ m ∧ ((k < j)%nat → x < m).
Proof.
  revert p best ibest. induction l as [|y l IH]; intros p best ibest Hb Hp.
  - simpl. exists best. rewrite app_nil_r. auto.
  - simpl. destruct (best <? y) eqn:E.
    + apply Z.ltb_lt in E.
      specialize (IH (p ++ [y]) y (length p)).
      rewrite length_app, Nat.add_1_r, <- app_assoc in IH. simpl in IH.
      apply IH.
      * by rewrite lookup_app_r, Nat.sub_diag.
      * intros k x Hk. apply lookup_app_Some in Hk as [Hk|[Hge Hk]].
        -- destruct (Hp k x Hk). split; [lia|]. intros _. lia.
        -- apply list_lookup_singleton_Some in Hk as [Hk ->].
           split; [lia|]. intros ?. lia.
    + apply Z.ltb_ge in E.
      specialize (IH (p ++ [y]) best ibest).
      rewrite length_app, Nat.add_1_r, <- app_assoc in IH. simpl in IH.
      apply IH.
      * by apply lookup_app_l_Some.
      * intros k x Hk. apply lookup_app_Some in Hk as [Hk|[Hge Hk]].
        -- by apply Hp.
        -- apply list_lookup_singleton_Some in Hk as [Hk ->].
           split; [lia|]. intros Hlt. apply lookup_lt_Some in Hb. lia.
Qed.

Lemma np_argmax_spec (l : list Z) :
  l ≠ [] →
  ∃ j m, np_argmax l = Ok j
         ∧ l !! j = Some m
         ∧ ∀ k x, l !! k = Some x → x ≤ m ∧ ((k < j)%nat → x < m).
Proof.
  destruct l as [|x l]; [done|]. intros _.
  destruct (argmax_from_spec [x] l x 0%nat) as (m & Hm & Hmax).
  - done.
  - intros [|k] y Hk; simpl in Hk; [|done].
    injection Hk as ->. split; [lia|]. lia.
  - exists (argmax_from x 0%nat 1%nat l), m. done.
Qed.


(** ** [__truediv__] *)

(** The result of a division by a positive scalar, echo by echo. *)
Lemma truediv_spec
    (a : Ionogram float64) (k : R) :
  echoes a ≠ [] →
  (0 < k)%R →
  ∃ c imax emax,
    __truediv__ a (Fin k) = Ok c
    ∧ echoes a !! imax = Some emax
    ∧ (∀ j e, echoes a !! j = Some e →
         echo_height e ≤ echo_height emax
         ∧ ((j < imax)%nat → echo_height e < echo_height emax))
    ∧ echoes c !! imax = Some (echo_key emax, Fin 1)
    ∧ (∀ j e, j ≠ imax → echoes a !! j = Some e →
         echoes c !! j
         = Some (echo_key e, reduced (decibels k) (echo_amp e))).
Proof.
  intros Hne Hk.
  destruct (np_argmax_spec (echo_height <$> echoes a))
    as (imax & m & Harg & Hm & Hmax).
  { by destruct (echoes a). }
  apply list_lookup_fmap_Some in Hm as (emax & -> & Hemax).
  unfold __truediv__. rewrite Harg, (dB_Fin_pos k Hk).
  cbn [mbind result_bind].
  eexists _, imax, emax. split; [reflexivity|].
  cbn [echoes set_echoes set_noise].
  split; [done|]. split; [|split].
  - intros j e He. apply (Hmax j). by rewrite list_lookup_fmap, He.
  - rewrite list_lookup_imap, Hemax. cbn [fmap option_fmap option_map].
    rewrite bool_decide_eq_false_2 by (intros ?; done).
    rewrite flt_Fin_false by lra. done.
  - intros j e Hj He. rewrite list_lookup_imap, He.
    cbn [fmap option_fmap option_map].
    rewrite bool_decide_eq_true_2 by done. done.
Qed.

(** X1. For a Record [a] with a non-empty echo list and
    a scalar [k > 0], [a / k] is returned and
    - the echo whose amplitude is forced to exactly 1 is the first echo
      with the greatest height index (column 1 of the echo table), not
      the one with the greatest amplitude;
    - every other echo keeps its indices and has its amplitude reduced by
      [20*log10(k)], becoming [nan] when the reduced value is negative. *)
Theorem truediv_reference_is_highest_echo
    (a : Ionogram float64) (k : R) :
  echoes a ≠ [] →
  (0 < k)%R →
  ∃ c imax emax,
    __truediv__ a (Fin k) = Ok c
    ∧ echoes a !! imax = Some emax
    ∧ (∀ j e, echoes a !! j = Some e →
         echo_height e ≤ echo_height emax
         ∧ ((j < imax)%nat → echo_height e < echo_height emax))
    ∧ echoes c !! imax = Some (echo_key emax, Fin 1)
    ∧ (∀ j e, j ≠ imax → echoes a !! j = Some e →
         echoes c !! j
         = Some (echo_key e, reduced (decibels k) (echo_amp e))).
Proof. exact (truediv_spec a k). Qed.

Lemma truediv_reference_witness :
  ∃ c, __truediv__ two_echoes (Fin 2) = Ok c
       ∧ echoes c !! 1%nat = Some (0, 20, Fin 1).
Proof.
  destruct (truediv_reference_is_highest_echo two_echoes 2)
    as (c & imax & emax & Hc & He & Hmax & H1 & _).
  - discriminate.
  - lra.
  - exists c. split; [done|].
    assert (imax = 1%nat) as ->.
    { destruct imax as [|[|imax]]; [|done|done].
      injection He as <-.
      destruct (Hmax 1%nat (0, 20, Fin 30) eq_refl) as [Hle _].
      vm_compute in Hle. by destruct Hle. }
    injection He as <-. exact H1.
Defined.

(** With [k = 1] the echo of greatest amplitude (50, at index 0) keeps
    amplitude 50, and it is the echo of greatest height index that is set
    to 1. *)
Lemma truediv_strongest_echo_is_not_reference :
  (30 < 50)%R
  ∧ __truediv__ two_echoes (Fin 1)
    = Ok (set_echoes [(0, 10, Fin 50); (0, 20, Fin 1)] two_echoes)
  ∧ Fin 50 ≠ Fin 1.
Proof.
  split; [lra|]. split.
  - unfold __truediv__, two_echoes. rewrite dB_Fin_pos, decibels_1 by lra.
    simpl.
    replace (50 + - 0)%R with 50%R by lra.
    destruct (Rlt_dec 50 0); [lra|]. destruct (Rlt_dec 1 0); [lra|]. done.
  - intros [= H]. lra.
Qed.

(** ** The two loops of [merge] *)
















(** ** In-place addition on misaligned operands *)


(** ** The echo loop on the map view *)
















(** ** Addition of well-formed operands *)











(** X7. [a / k] raises [IndexError] when [a] has no echo.
    Otherwise, for [k > 0], it keeps the number, the order and the indices
    of the noise entries and of the echoes (an echo whose amplitude
    becomes negative is marked [nan], not deleted), and a finite noise
    level [x] becomes [max(0, x - 20*log10(k))]. *)
Theorem truediv_shape (a : Ionogram float64) (k : R) :
  (echoes a = [] → __truediv__ a (Fin k) = Raise IndexError)
  ∧ (∀ c, (0 < k)%R → __truediv__ a (Fin k) = Ok c →
       (noise c).*1 = (noise a).*1
       ∧ (echoes c).*1 = (echoes a).*1
       ∧ ∀ i f x, noise a !! i = Some (f, Fin x) →
           noise c !! i = Some (f, Fin (Rmax 0 (x - decibels k)))).
Proof.
  split.
  - intros He. unfold __truediv__. by rewrite He.
  - intros c Hk. unfold __truediv__.
    destruct (np_argmax _) as [imax|e]; [|discriminate].
    rewrite (dB_Fin_pos k Hk). cbn [mbind result_bind].
    intros [= <-]. cbn [noise echoes set_echoes set_noise].
    split; [|split].
    + rewrite <- list_fmap_compose. by apply list_fmap_ext.
    + apply list_eq. intros i.
      rewrite !list_lookup_fmap, list_lookup_imap.
      by destruct (echoes a !! i).
    + intros i f x Hi. rewrite list_lookup_fmap, Hi.
      cbn [fmap option_fmap option_map fst snd fsub fneg fadd flt].
      unfold Rmax.
      destruct (Rlt_dec (x + - decibels k) 0);
        destruct (Rle_dec 0 (x - decibels k)); try lra; done.
Qed.

Lemma truediv_shape_witness :
  ∃ c, __truediv__ two_echoes (Fin 2) = Ok c
       ∧ (echoes c).*1 = (echoes two_echoes).*1.
Proof.
  destruct (truediv_spec two_echoes 2)
    as (c & _ & _ & Hc & _); [discriminate|lra|].
  exists c. split; [done|].
  apply (proj2 (truediv_shape two_echoes 2) c); [lra|done].
Defined.

(** ** Invariants of decoding *)

Lemma from_bytes_snoc bs b :
  from_bytes (bs ++ [b]) = from_bytes bs * 256 + byte_val b.
Proof. unfold from_bytes. by rewrite fold_left_app. Qed.

Lemma from_bytes_bound bs : 0 ≤ from_bytes bs < 256 ^ Z.of_nat (length bs).
Proof.
  induction bs as [|b bs IH] using rev_ind.
  - simpl. unfold from_bytes. simpl. lia.
  - rewrite from_bytes_snoc, length_app. simpl.
    replace (Z.of_nat (length bs + 1)) with (Z.succ (Z.of_nat (length bs)))
      by lia.
    rewrite Z.pow_succ_r by lia. pose proof (byte_val_range b). nia.
Qed.

Lemma from_bytes_cons b bs :
  from_bytes (b :: bs)
  = byte_val b * 256 ^ Z.of_nat (length bs) + from_bytes bs.
Proof.
  induction bs as [|c bs IH] using rev_ind.
  - unfold from_bytes. simpl. lia.
  - rewrite app_comm_cons, !from_bytes_snoc, IH, length_app. simpl.
    replace (Z.of_nat (length bs + 1)) with (Z.succ (Z.of_nat (length bs)))
      by lia.
    rewrite Z.pow_succ_r by lia. lia.
Qed.

(** The first two bytes of a group that is not a header read as a value
    below 32768. *)
Lemma sample_amp_bound (g : list byte) :
  is_header g = false → 0 ≤ from_bytes (take 2 g) < 32768.
Proof.
  intros Hh. destruct g as [|b0 [|b1 g]].
  - unfold from_bytes. simpl. lia.
  - simpl in Hh. apply Z.leb_gt in Hh. unfold from_bytes. simpl.
    pose proof (byte_val_range b0). lia.
  - simpl in Hh. apply Z.leb_gt in Hh.
    change (take 2 (b0 :: b1 :: g)) with [b0; b1]. rewrite from_bytes_2.
    pose proof (byte_val_range b0). pose proof (byte_val_range b1). lia.
Qed.

Lemma sample_height_bound (g : list byte) :
  (length g ≤ 4)%nat → 0 ≤ from_bytes (drop 2 g) < 65536.
Proof.
  intros Hg. pose proof (from_bytes_bound (drop 2 g)) as H.
  rewrite length_drop in H.
  assert (256 ^ Z.of_nat (length g - 2) ≤ 65536).
  { change 65536 with (256 ^ 2). apply Z.pow_le_mono_r; lia. }
  lia.
Qed.

Lemma groups_length_le ion : Forall (fun g => (length g ≤ 4)%nat) (groups ion).
Proof.
  unfold groups. apply Forall_fmap, Forall_forall. intros ib _. simpl.
  unfold slice. rewrite length_take. lia.
Qed.

Lemma groups_count ion : length (groups ion) = ((length ion + 3) / 4)%nat.
Proof. unfold groups, arange4. by rewrite !length_fmap, length_seq. Qed.

Lemma noise_inv_mono k k' ns : k ≤ k' → noise_inv k ns → noise_inv k' ns.
Proof.
  intros Hk [Hb Hs]. split; [|done].
  eapply Forall_impl; [exact Hb|]. simpl. lia.
Qed.

Lemma echoes_inv_mono k k' es : k ≤ k' → echoes_inv k es → echoes_inv k' es.
Proof.
  intros Hk [Hb Hs]. split; [|done].
  eapply Forall_impl; [exact Hb|]. simpl. lia.
Qed.

Lemma noise_inv_snoc k ns amp :
  -1 ≤ k → 0 ≤ amp < 32768 → noise_inv k ns → noise_inv k (ns ++ [(k, amp)]).
Proof.
  intros Hk Ha [Hb Hs]. split.
  - apply Forall_app. split; [done|]. apply Forall_singleton. simpl. lia.
  - intros i j e e' Hij Hi Hj.
    apply lookup_app_Some in Hj as [Hj|[Hge Hj]].
    + rewrite lookup_app_l in Hi by (apply lookup_lt_Some in Hj; lia).
      by apply (Hs i j).
    + apply list_lookup_singleton_Some in Hj as [_ <-]. simpl.
      apply lookup_app_Some in Hi as [Hi|[_ Hi]].
      * rewrite Forall_forall in Hb.
        apply (Hb e). by eapply list_elem_of_lookup_2.
      * apply list_lookup_singleton_Some in Hi as [_ <-]. simpl. lia.
Qed.

Lemma echoes_inv_snoc k es it amp :
  -1 ≤ k → 0 ≤ amp < 32768 → 0 ≤ it < 65536 → it ≠ 1 →
  echoes_inv k es → echoes_inv k (es ++ [(k, it, amp)]).
Proof.
  intros Hk Ha Hit H1 [Hb Hs]. split.
  - apply Forall_app. split; [done|]. apply Forall_singleton.
    unfold echo_freq, echo_amp, echo_height. simpl. lia.
  - intros i j e e' Hij Hi Hj.
    apply lookup_app_Some in Hj as [Hj|[Hge Hj]].
    + rewrite lookup_app_l in Hi by (apply lookup_lt_Some in Hj; lia).
      by apply (Hs i j).
    + apply list_lookup_singleton_Some in Hj as [_ <-].
      apply lookup_app_Some in Hi as [Hi|[_ Hi]].
      * rewrite Forall_forall in Hb.
        apply (Hb e). by eapply list_elem_of_lookup_2.
      * apply list_lookup_singleton_Some in Hi as [_ <-]. done.
Qed.

Lemma samples_step_inv v g :
  (length g ≤ 4)%nat →
  -1 ≤ v.1.1 → noise_inv v.1.1 v.1.2 → echoes_inv v.1.1 v.2 →
  let v' := samples_step v g in
  -1 ≤ v'.1.1 ∧ noise_inv v'.1.1 v'.1.2 ∧ echoes_inv v'.1.1 v'.2
  ∧ (length v'.1.2 + length v'.2 + (if is_header g then 1 else 0)
     = length v.1.2 + length v.2 + 1)%nat.
Proof.
  destruct v as [[k ns] es]. simpl. intros Hg Hk Hn He.
  destruct (is_header g) eqn:Hh; simpl.
  - split; [lia|]. split; [by apply (noise_inv_mono k); [lia|]|].
    split; [by apply (echoes_inv_mono k); [lia|]|]. lia.
  - pose proof (sample_amp_bound g Hh). pose proof (sample_height_bound g Hg).
    destruct (from_bytes (drop 2 g) =? 1) eqn:E; simpl.
    + split; [done|]. split; [by apply noise_inv_snoc|]. split; [done|].
      rewrite length_app. simpl. lia.
    + apply Z.eqb_neq in E. split; [done|]. split; [done|].
      split; [by apply echoes_inv_snoc|]. rewrite length_app. simpl. lia.
Qed.

Lemma samples_fold_inv gs v :
  Forall (fun g => (length g ≤ 4)%nat) gs →
  -1 ≤ v.1.1 → noise_inv v.1.1 v.1.2 → echoes_inv v.1.1 v.2 →
  let v' := foldl samples_step v gs in
  noise_inv v'.1.1 v'.1.2 ∧ echoes_inv v'.1.1 v'.2
  ∧ (length v'.1.2 + length v'.2
     + length (filter (fun g => is_header g = true) gs)
     = length v.1.2 + length v.2 + length gs)%nat.
Proof.
  revert v. induction gs as [|g gs IH]; intros v Hgs Hk Hn He.
  - simpl. split; [done|]. split; [done|]. lia.
  - apply Forall_cons in Hgs as [Hg Hgs].
    destruct (samples_step_inv v g Hg Hk Hn He) as (Hk' & Hn' & He' & Hl).
    destruct (IH (samples_step v g) Hgs Hk' Hn' He') as (Hn2 & He2 & Hl2).
    cbn [foldl]. split; [done|]. split; [done|].
    destruct (is_header g) eqn:Hh.
    + rewrite filter_cons_True by done. simpl in *. lia.
    + rewrite filter_cons_False by (by rewrite Hh). simpl in *. lia.
Qed.

(** X8. Decoding never raises, whatever the bytes, also
    when the body is not a whole number of 4-byte groups: the last, short
    group is decoded from the bytes it has. Every group gives exactly one
    thing: a cluster header, a noise sample or an echo sample. *)
Theorem decode_accounts_for_every_group (body : list byte) :
  (parse_ionogram (set_data [] body init)).2 = Ok tt
  ∧ (length (noise (decode body)) + length (echoes (decode body))
     + headers body = (length body + 3) / 4)%nat.
Proof.
  split; [apply parse_ionogram_total|].
  pose proof (decode_samples body) as Hd. cbv zeta in Hd.
  injection Hd as -> ->.
  destruct (samples_fold_inv (groups body) (-1, [], [])) as (_ & _ & Hl).
  - apply groups_length_le.
  - simpl. lia.
  - split; [apply Forall_nil_2|]. intros i j e e' _ Hi. done.
  - split; [apply Forall_nil_2|]. intros i j e e' _ Hi. done.
  - unfold headers. rewrite <- groups_count. simpl in Hl. lia.
Qed.

(** The ranges of the decoded samples. *)
Lemma decode_ranges (body : list byte) :
  let k := Z.of_nat (headers body) - 1 in
  noise_inv k (noise (decode body)) ∧ echoes_inv k (echoes (decode body)).
Proof.
  pose proof (decode_samples body) as Hd. cbv zeta in Hd.
  injection Hd as -> ->.
  pose proof (samples_counter (groups body) (-1, [], [])) as Hc.
  destruct (samples_fold_inv (groups body) (-1, [], [])) as (Hn & He & _).
  - apply groups_length_le.
  - simpl. lia.
  - split; [apply Forall_nil_2|]. intros i j e e' _ Hi. done.
  - split; [apply Forall_nil_2|]. intros i j e e' _ Hi. done.
  - cbv zeta. unfold headers.
    replace (Z.of_nat (length (filter (λ g, is_header g = true)
                                 (groups body))) - 1)
      with ((foldl samples_step (-1, [], []) (groups body)).1.1)
      by (rewrite Hc; simpl; lia).
    done.
Qed.

(** X9. In every decoded Record, with [h] cluster headers in
    the body: frequency indices lie between -1 and [h - 1] and never
    decrease along the noise list or along the echo list; amplitudes lie
    in 0..32767; echo height indices lie in 0..65535 and are never 1. *)
Theorem decode_sample_ranges (body : list byte) :
  let k := Z.of_nat (headers body) - 1 in
  noise_inv k (noise (decode body)) ∧ echoes_inv k (echoes (decode body)).
Proof. exact (decode_ranges body). Qed.

Lemma decode_snoc_header pre g :
  (length pre `mod` 4 = 0)%nat →
  length g = 4%nat →
  is_header g = true →
  noise (decode (pre ++ g)) = noise (decode pre)
  ∧ echoes (decode (pre ++ g)) = echoes (decode pre)
  ∧ headers (pre ++ g) = S (headers pre).
Proof.
  intros Hpre Hg Hh.
  assert (groups g = [g]) as Eg.
  { rewrite <- (app_nil_r g) at 1. by rewrite groups_cons4. }
  pose proof (decode_samples (pre ++ g)) as Hd. simpl in Hd.
  rewrite decode_app_samples, Eg in Hd by done.
  simpl in Hd. rewrite Hh in Hd. simpl in Hd. injection Hd as -> ->.
  split; [done|]. split; [done|].
  unfold headers. rewrite groups_app, Eg, filter_app, length_app by done.
  rewrite filter_cons_True by done. simpl. lia.
Qed.

(** X10. The two 16-bit values [amp], [it] written as a
    sample group are read back as a sample only when [amp < 32768]: from
    32768 on, the top bit makes the decoder take the group for a cluster
    header, so that no sample is stored and the cluster counter
    advances. *)
Theorem written_sample_is_header_from_32768
    (pre b1 b2 : list byte) (amp it : Z) :
  (length pre `mod` 4 = 0)%nat →
  to_bytes 2 amp = Ok b1 →
  to_bytes 2 it = Ok b2 →
  check_new_cluster (slice 0 2 (b1 ++ b2)) cluster_flag
  = Ok (bool_decide (32768 ≤ amp))
  ∧ (32768 ≤ amp →
       noise (decode (pre ++ b1 ++ b2)) = noise (decode pre)
       ∧ echoes (decode (pre ++ b1 ++ b2)) = echoes (decode pre)
       ∧ headers (pre ++ b1 ++ b2) = S (headers pre)).
Proof.
  intros Hpre H1 H2.
  assert (0 ≤ amp < 65536) as Ha.
  { unfold to_bytes in H1.
    replace (256 ^ Z.of_nat 2) with 65536 in H1 by reflexivity.
    destruct (Z.leb_spec 0 amp); destruct (Z.ltb_spec amp 65536);
      simpl in H1; try discriminate; lia. }
  destruct (from_to_bytes_2 _ _ H2) as [_ Hl2].
  rewrite to_bytes_2 in H1 by done. injection H1 as <-.
  assert (0 ≤ amp / 256 < 256) as Hq.
  { split; [apply Z.div_pos; lia|apply Z.div_lt_upper_bound; lia]. }
  assert (is_header ([byte_of (amp / 256); byte_of (amp `mod` 256)] ++ b2)
          = bool_decide (32768 ≤ amp)) as Hh.
  { simpl. rewrite byte_val_of by done.
    destruct (Z.leb_spec 128 (amp / 256)) as [Hge|Hlt].
    - rewrite bool_decide_eq_true_2; [done|].
      pose proof (Z.div_mod amp 256). pose proof (Z.mod_pos_bound amp 256).
      lia.
    - rewrite bool_decide_eq_false_2; [done|].
      pose proof (Z.div_mod amp 256). pose proof (Z.mod_pos_bound amp 256).
      lia. }
  split.
  - rewrite check_new_cluster_flag.
    replace (slice 0 2 ([byte_of (amp / 256); byte_of (amp `mod` 256)] ++ b2))
      with (take 2 ([byte_of (amp / 256); byte_of (amp `mod` 256)] ++ b2))
      by (unfold slice; by rewrite drop_0).
    by rewrite is_header_take_2, Hh.
  - intros Hbig. apply decode_snoc_header; [done|..].
    + rewrite length_app, Hl2. done.
    + rewrite Hh. by apply bool_decide_eq_true_2.
Qed.

Lemma written_sample_is_header_witness :
  check_new_cluster (slice 0 2 ([x9c; x40] ++ [x00; x0a])) cluster_flag
  = Ok (bool_decide (32768 ≤ 40000)).
Proof.
  exact (proj1 (written_sample_is_header_from_32768 [] [x9c; x40]
                  [x00; x0a] 40000 10 eq_refl eq_refl eq_refl)).
Defined.

(** ** [get_ionogram] *)

Lemma py_axis_nonneg n i : 0 ≤ i < n → py_axis n i = Ok (Z.to_nat i).
Proof.
  intros Hi. unfold py_axis.
  rewrite (proj2 (Z.ltb_ge i 0)) by lia.
  rewrite (proj2 (Z.leb_le 0 i)) by lia.
  by rewrite (proj2 (Z.ltb_lt i n)) by lia.
Qed.

Lemma np_setitem_in {A} (m : ndarray A) i j x :
  0 ≤ i < nrows m → 0 ≤ j < ncols m →
  np_setitem i j x m
  = (mk_ndarray (nrows m) (ncols m) (<[(i, j) := x]> (cells m)), Ok tt).
Proof.
  intros Hi Hj. unfold np_setitem.
  rewrite !py_axis_nonneg by done. by rewrite !Z2Nat.id by lia.
Qed.



Section GetIonogram.
Context {A : Type} `{Sample A}.

Lemma fill_matrix_in (self : Ionogram A) (m0 : ndarray A) :
  nrows m0 = nheights self → ncols m0 = nfrequences self →
  Forall (fun e => echo_height e < nheights self →
                   cell_in (nheights self) (nfrequences self) e)
    (echoes self) →
  fill_matrix self m0
  = (mk_ndarray (nheights self) (nfrequences self)
       (fill_cells (nheights self) (echoes self) (cells m0)), Ok tt).
Proof.
  unfold fill_matrix, fill_cells. generalize (echoes self) as es.
  intros es. revert m0. induction es as [|e es IH]; intros m0 Hr Hc Hes.
  - simpl. unfold io_ret. destruct m0; simpl in *. by subst.
  - apply Forall_cons in Hes as [He Hes]. cbn [for_each foldl].
    unfold io_bind.
    destruct (Z.ltb_spec (echo_height e) (nheights self)) as [Hlt|Hge].
    + destruct (He Hlt) as [Hh Hf].
      rewrite np_setitem_in by (rewrite ?Hr, ?Hc; done).
      rewrite IH by done. done.
    + unfold io_ret. by rewrite IH.
Qed.

Lemma recalc_matrix_in (self : Ionogram A) :
  0 ≤ nheights self → 0 ≤ nfrequences self →
  Forall (fun e => echo_height e < nheights self →
                   cell_in (nheights self) (nfrequences self) e)
    (echoes self) →
  let m := mk_ndarray (nheights self) (nfrequences self)
             (fill_cells (nheights self) (echoes self) ∅) in
  recalc_matrix self = (set_ionogram_matrix (Some m) self, Ok m).
Proof.
  intros Hh Hf Hes m. unfold recalc_matrix, np_full.
  rewrite (proj2 (Z.ltb_ge (nheights self) 0)) by lia.
  rewrite (proj2 (Z.ltb_ge (nfrequences self) 0)) by lia.
  cbn [orb]. by rewrite fill_matrix_in.
Qed.

(** The last echo at a place wins. *)
Lemma fill_cells_lookup nh (es : list (Z * Z * A)) c h f :
  fill_cells nh es c !! (h, f)
  = match list_find (fun e => echo_height e = h ∧ echo_freq e = f
                              ∧ h < nh) (reverse es) with
    | Some (_, e) => Some (echo_amp e)
    | None => c !! (h, f)
    end.
Proof.
  revert c. induction es as [|e es IH] using rev_ind; intros c.
  - done.
  - unfold fill_cells. rewrite foldl_snoc. fold (fill_cells nh es c).
    rewrite reverse_snoc. simpl.
    destruct (Z.ltb_spec (echo_height e) nh) as [Hlt|Hge].
    + destruct (decide (echo_height e = h ∧ echo_freq e = f ∧ h < nh))
        as [(<- & <- & _)|Hne].
      * by rewrite lookup_insert_eq.
      * rewrite lookup_insert_ne.
        2:{ intros [= E1 E2]. apply Hne. subst. done. }
        rewrite IH. by destruct (list_find _ (reverse es)) as [[i e']|].
    + rewrite decide_False by lia.
      rewrite IH. by destruct (list_find _ (reverse es)) as [[i e']|].
Qed.

(** With one echo at most per place, a cell holds the echo of its
    place. *)
Lemma fill_cells_unique nh (es : list (Z * Z * A)) h f v :
  NoDup es.*1 →
  fill_cells nh es ∅ !! (h, f) = Some v ↔ (f, h, v) ∈ es ∧ h < nh.
Proof.
  intros Hnd. rewrite fill_cells_lookup.
  destruct (list_find _ (reverse es)) as [[i e]|] eqn:Hfind.
  - apply list_find_Some in Hfind as (Hi & (Hh & Hf & Hlt) & _).
    assert (e ∈ es) as He
        by (apply elem_of_reverse; by eapply list_elem_of_lookup_2).
    destruct e as [[f' h'] v']. unfold echo_height, echo_freq in *.
    simpl in *. subst f' h'. unfold echo_amp. simpl.
    split.
    + by intros [= <-].
    + intros [Hin _]. f_equal.
      assert ((list_to_map es : gmap (Z * Z) A) !! (f, h) = Some v') as E1
          by (by apply elem_of_list_to_map).
      assert ((list_to_map es : gmap (Z * Z) A) !! (f, h) = Some v) as E2
          by (by apply elem_of_list_to_map).
      congruence.
  - rewrite lookup_empty. split; [done|]. intros [Hin Hlt].
    apply list_find_None in Hfind. rewrite Forall_forall in Hfind.
    exfalso. apply (Hfind (f, h, v)); [by apply elem_of_reverse|done].
Qed.

End GetIonogram.

Section GetIonogramProperties.
Context {A : Type} `{Sample A}.

(** X11. When the dense matrix is recomputed (no matrix cached
    yet, or [recalc]) for a non-negative shape and echoes whose indices
    below [nheights] are non-negative and inside the shape,
    [get_ionogram] returns a matrix of shape (nheights, nfrequences) and
    caches it. An echo with height index [>= nheights] is skipped without
    a word; the cell (h, f) holds the amplitude of the last echo of the
    list at frequency f and height h, and [nan] if there is none. *)
Theorem get_ionogram_cells (recalc : bool) (self : Ionogram A) :
  recalc = true ∨ ionogram_matrix self = None →
  0 ≤ nheights self → 0 ≤ nfrequences self →
  Forall (fun e => echo_height e < nheights self →
                   cell_in (nheights self) (nfrequences self) e)
    (echoes self) →
  ∃ m,
    get_ionogram recalc self = (set_ionogram_matrix (Some m) self, Ok m)
    ∧ nrows m = nheights self ∧ ncols m = nfrequences self
    ∧ ∀ h f,
        cells m !! (h, f)
        = match list_find (fun e => echo_height e = h ∧ echo_freq e = f
                                    ∧ h < nheights self)
                  (reverse (echoes self)) with
          | Some (_, e) => Some (echo_amp e)
          | None => None
          end.
Proof.
  intros Hre Hh Hf Hes. eexists. split; [|split; [|split]].
  - unfold get_ionogram. destruct Hre as [-> | ->].
    + destruct (ionogram_matrix self); [rewrite orb_true_r|];
        by apply recalc_matrix_in.
    + by apply recalc_matrix_in.
  - done.
  - done.
  - intros h f. cbn [cells]. rewrite fill_cells_lookup.
    by rewrite lookup_empty.
Qed.



Lemma np_any_nan (m : ndarray A) h f :
  0 ≤ h < nrows m → 0 ≤ f < ncols m → cells m !! (h, f) = None →
  np_any m = true.
Proof.
  intros Hh Hf Hc. unfold np_any.
  apply existsb_exists. exists h. split.
  - apply list_elem_of_In, elem_of_seqZ. lia.
  - apply existsb_exists. exists f. split.
    + apply list_elem_of_In, elem_of_seqZ. lia.
    + by rewrite Hc.
Qed.

(** X13. The dense matrix is cached. Once [get_ionogram] has
    returned a matrix with at least one empty cell, a later call without
    [recalc] returns that same matrix whatever the echo list has become
    in between: changes to the echoes do not reach the matrix. *)
Theorem get_ionogram_cache_is_stale (recalc : bool) (s s1 : Ionogram A)
    (m : ndarray A) (h f : Z) (es' : list (Z * Z * A)) :
  get_ionogram recalc s = (s1, Ok m) →
  0 ≤ h < nrows m → 0 ≤ f < ncols m → cells m !! (h, f) = None →
  get_ionogram false (set_echoes es' s1) = (set_echoes es' s1, Ok m).
Proof.
  intros Hget Hh Hf Hc.
  assert (ionogram_matrix s1 = Some m) as Hm.
  { revert Hget. unfold get_ionogram, recalc_matrix.
    destruct (ionogram_matrix s) as [m0|] eqn:E.
    - destruct (negb (np_any m0) || recalc).
      + destruct (np_full _ _); [|by intros [=]].
        destruct (fill_matrix s a) as [m1 [[]|e]]; by intros [= <- <-].
      + intros [= <- <-]. done.
    - destruct (np_full _ _); [|by intros [=]].
      destruct (fill_matrix s a) as [m1 [[]|e]]; by intros [= <- <-]. }
  unfold get_ionogram. cbn [ionogram_matrix set_echoes]. rewrite Hm.
  by rewrite (np_any_nan m h f).
Qed.

End GetIonogramProperties.

Lemma get_ionogram_cells_witness :
  ∃ m, get_ionogram false rec_small
       = (set_ionogram_matrix (Some m) rec_small, Ok m)
       ∧ nrows m = 2.
Proof.
  destruct (get_ionogram_cells false rec_small) as (m & Hm & Hr & _).
  - by right.
  - done.
  - done.
  - apply Forall_singleton. intros _. unfold cell_in. done.
  - by exists m.
Defined.


Lemma get_ionogram_cache_is_stale_witness :
  ∃ m, get_ionogram false
         (set_echoes [(0, 1, 3)] (get_ionogram false rec_small).1)
       = (set_echoes [(0, 1, 3)] (get_ionogram false rec_small).1, Ok m)
       ∧ cells m !! (1, 0) = None.
Proof.
  eexists. split.
  - apply (get_ionogram_cache_is_stale false rec_small _ _ 1 0).
    + reflexivity.
    + done.
    + done.
    + reflexivity.
  - reflexivity.
Defined.

(** ** Encoding *)

Lemma for_each_writer {X} (l : list X) (body : X → io (list byte) unit)
    (f : X → list (list byte)) buf :
  (∀ x buf, x ∈ l → body x buf = (buf ++ concat (f x), Ok tt)) →
  for_each l body buf = (buf ++ concat (l ≫= f), Ok tt).
Proof.
  revert buf. induction l as [|x l IH]; intros buf Hb.
  - simpl. unfold io_ret. by rewrite app_nil_r.
  - cbn [for_each]. unfold io_bind. rewrite Hb by left.
    rewrite IH by (intros; apply Hb; by right).
    rewrite bind_cons, concat_app, app_assoc. done.
Qed.

Lemma lor_flag ifn :
  0 ≤ ifn < 32767 →
  Z.lor (ifn + 1) 32768 = ifn + 1 + 32768.
Proof.
  intros Hi.
  assert (Z.land (ifn + 1) 32768 = 0) as Hl.
  { apply Z.bits_inj'. intros n Hn. rewrite Z.land_spec, Z.bits_0.
    destruct (decide (n = 15)) as [->|Hne].
    - rewrite (Z.bits_above_log2 (ifn + 1) 15); [done|lia|].
      apply Z.log2_lt_pow2; lia.
    - change 32768 with (2 ^ 15). rewrite Z.pow2_bits_false by lia.
      apply andb_false_r. }
  rewrite <- Z.lxor_lor by done. symmetry. by apply Z.add_nocarry_lxor.
Qed.

Lemma to_bytes_2' z : 0 ≤ z < 65536 → to_bytes 2 z = Ok (bytes2 z).
Proof. apply to_bytes_2. Qed.

Lemma write_column (amp : ndarray Z) (nh ifn : Z) buf :
  nh ≤ nrows amp → nh ≤ 65536 → 0 ≤ ifn < ncols amp →
  (∀ it v, 0 ≤ it < nh → cells amp !! (it, ifn) = Some v → 0 ≤ v < 65536) →
  for_each (range nh) (fun it =>
    c <~ io_lift (np_getitem amp it ifn) ;;
    if negb (cell_isnan c) then
      b <~ io_lift (v ← cell_int c; to_bytes 2 v) ;; fwrite b ;;;
      b <~ io_lift (to_bytes 2 it) ;; fwrite b
    else io_ret tt) buf
  = (buf ++ concat (range nh ≫= cell_groups amp ifn), Ok tt).
Proof.
  intros Hr Hn Hc Hv. apply for_each_writer.
  intros it b Hit. apply elem_of_seqZ in Hit.
  unfold io_bind at 1. unfold io_lift at 1. unfold np_getitem.
  rewrite !py_axis_nonneg by lia. cbn [mbind result_bind].
  rewrite !Z2Nat.id by lia. unfold cell_groups.
  destruct (cells amp !! (it, ifn)) as [v|] eqn:E.
  - cbn [cell_isnan sample_isnan Z_Sample negb cell_int sample_int].
    unfold io_bind, io_lift, fwrite, io_modify. cbn [mbind result_bind].
    rewrite (to_bytes_2' v) by (eapply Hv; [|done]; lia).
    rewrite (to_bytes_2' it) by lia.
    simpl. by rewrite <- app_assoc.
  - cbn [cell_isnan negb]. unfold io_ret. simpl. by rewrite app_nil_r.
Qed.

Lemma emit_ok (r : result (list byte)) bs (k : io (list byte) unit) buf :
  r = Ok bs →
  (b <~ io_lift r ;; fwrite b ;;; k) buf = k (buf ++ bs).
Proof. by intros ->. Qed.

Lemma write_body_groups (self : Ionogram Z) (amp : ndarray Z) buf :
  0 ≤ nfrequences self ≤ 32767 →
  nheights self ≤ 65536 →
  nheights self ≤ nrows amp → nfrequences self ≤ ncols amp →
  (Z.to_nat (nfrequences self) ≤ length (noise self))%nat →
  (∀ i e, noise self !! i = Some e → Z.of_nat i < nfrequences self →
          0 ≤ e.2 < 65536) →
  (∀ it ifn v, 0 ≤ it < nheights self → 0 ≤ ifn < nfrequences self →
               cells amp !! (it, ifn) = Some v → 0 ≤ v < 65536) →
  write_body self amp buf = (buf ++ concat (body_groups self amp), Ok tt).
Proof.
  intros Hnf Hnh Hr Hc Hlen Hnoise Hcells. unfold write_body, body_groups.
  apply for_each_writer. intros ifn b Hifn. apply elem_of_seqZ in Hifn.
  destruct (lookup_lt_is_Some_2 (noise self) (Z.to_nat ifn)) as [e He];
    [lia|].
  assert ((x ← noise_item self ifn; v ← sample_int x; to_bytes 2 v)
          = Ok (bytes2 e.2)) as Hn.
  { unfold noise_item. rewrite He. cbn [mbind result_bind sample_int Z_Sample].
    apply to_bytes_2', (Hnoise _ _ He). lia. }
  rewrite (emit_ok _ (bytes2 (Z.lor (ifn + 1) 32768)))
    by (apply to_bytes_2'; rewrite lor_flag; lia).
  rewrite (emit_ok _ (bytes2 1)) by done.
  rewrite (emit_ok _ (bytes2 e.2)) by done.
  rewrite (emit_ok _ (bytes2 1)) by done.
  rewrite write_column; [|lia|lia|lia|].
  2:{ intros it v Hit Hv. apply (Hcells it ifn); [done|lia|done]. }
  unfold cluster_groups, noise_value. rewrite He.
  simpl. by rewrite <- !app_assoc.
Qed.

(** ** Decoding what was encoded *)

Lemma from_bytes_bytes2 z : 0 ≤ z < 65536 → from_bytes (bytes2 z) = z.
Proof.
  intros Hz. apply (from_to_bytes_2 z). by apply to_bytes_2'.
Qed.

Lemma is_header_bytes2 z rest :
  0 ≤ z < 65536 → is_header (bytes2 z ++ rest) = (32768 <=? z).
Proof.
  intros Hz. simpl.
  rewrite byte_val_of
    by (split; [apply Z.div_pos; lia|apply Z.div_lt_upper_bound; lia]).
  pose proof (Z.div_mod z 256). pose proof (Z.mod_pos_bound z 256).
  destruct (Z.leb_spec 128 (z / 256)); destruct (Z.leb_spec 32768 z); lia.
Qed.

Lemma samples_step_header k ns es hv rest :
  32768 ≤ hv < 65536 →
  samples_step (k, ns, es) (bytes2 hv ++ rest) = (k + 1, ns, es).
Proof.
  intros Hv. unfold samples_step. rewrite is_header_bytes2 by lia.
  by rewrite (proj2 (Z.leb_le 32768 hv)) by lia.
Qed.

Lemma samples_step_sample k ns es v it :
  0 ≤ v < 32768 → 0 ≤ it < 65536 →
  samples_step (k, ns, es) (bytes2 v ++ bytes2 it)
  = if it =? 1 then (k, ns ++ [(k, v)], es)
    else (k, ns, es ++ [(k, it, v)]).
Proof.
  intros Hv Hit. unfold samples_step. rewrite is_header_bytes2 by lia.
  rewrite (proj2 (Z.leb_gt 32768 v)) by lia.
  change (take 2 (bytes2 v ++ bytes2 it)) with (bytes2 v).
  change (drop 2 (bytes2 v ++ bytes2 it)) with (bytes2 it).
  by rewrite !from_bytes_bytes2 by lia.
Qed.

Lemma decode_column (amp : ndarray Z) ifn k ns es (l : list Z) :
  Forall (fun it => 0 ≤ it < 65536
                    ∧ ∀ v, cells amp !! (it, ifn) = Some v →
                           0 ≤ v < 32768 ∧ it ≠ 1)
    l →
  foldl samples_step (k, ns, es) (l ≫= cell_groups amp ifn)
  = (k, ns,
     es ++ (l ≫= fun it => match cells amp !! (it, ifn) with
                           | Some v => [(k, it, v)]
                           | None => []
                           end)).
Proof.
  revert es. induction l as [|it l IH]; intros es Hl.
  - simpl. by rewrite app_nil_r.
  - apply Forall_cons in Hl as [(Hit & Hv) Hl].
    rewrite !bind_cons, foldl_app. unfold cell_groups at 1.
    destruct (cells amp !! (it, ifn)) as [v|] eqn:E.
    + destruct (Hv v eq_refl) as [Hv' H1].
      cbn [foldl]. rewrite samples_step_sample by lia.
      rewrite (proj2 (Z.eqb_neq it 1)) by done.
      rewrite IH by done. by rewrite <- app_assoc.
    + cbn [foldl]. by rewrite IH.
Qed.

Lemma decode_cluster (self : Ionogram Z) (amp : ndarray Z) ifn k ns es :
  0 ≤ ifn < 32767 →
  0 ≤ nheights self ≤ 65536 →
  0 ≤ noise_value self ifn < 32768 →
  (∀ it v, 0 ≤ it < nheights self → cells amp !! (it, ifn) = Some v →
           0 ≤ v < 32768 ∧ it ≠ 1) →
  foldl samples_step (k, ns, es) (cluster_groups self amp ifn)
  = (k + 1, ns ++ [(k + 1, noise_value self ifn)],
     es ++ column_echoes amp (nheights self) ifn (k + 1)).
Proof.
  intros Hi Hnh Hn Hc. unfold cluster_groups. rewrite foldl_app.
  cbn [foldl]. rewrite samples_step_header by (rewrite lor_flag; lia).
  rewrite samples_step_sample by lia. cbn [Z.eqb Pos.eqb].
  unfold column_echoes. apply decode_column.
  apply Forall_forall. intros it Hit. apply elem_of_seqZ in Hit.
  split; [lia|]. intros v Hv. apply (Hc it v); [lia|done].
Qed.

Lemma decode_body_groups (self : Ionogram Z) (amp : ndarray Z) (n : nat) :
  Z.of_nat n ≤ 32767 →
  0 ≤ nheights self ≤ 65536 →
  (∀ ifn, 0 ≤ ifn < Z.of_nat n → 0 ≤ noise_value self ifn < 32768) →
  (∀ it ifn v, 0 ≤ it < nheights self → 0 ≤ ifn < Z.of_nat n →
               cells amp !! (it, ifn) = Some v → 0 ≤ v < 32768 ∧ it ≠ 1) →
  foldl samples_step (-1, [], [])
    (seqZ 0 (Z.of_nat n) ≫= cluster_groups self amp)
  = (Z.of_nat n - 1,
     (fun ifn => (ifn, noise_value self ifn)) <$> seqZ 0 (Z.of_nat n),
     seqZ 0 (Z.of_nat n) ≫= fun ifn =>
       column_echoes amp (nheights self) ifn ifn).
Proof.
  intros Hn Hnh Hnoise Hcells. induction n as [|n IH].
  - done.
  - rewrite seqZ_S, !bind_app, foldl_app, fmap_app.
    rewrite IH by (try lia; intros; apply Hnoise || eapply Hcells; eauto; lia).
    cbn [mbind list_bind fmap list_fmap]. rewrite !app_nil_r.
    rewrite decode_cluster.
    + replace (Z.of_nat n - 1 + 1) with (0 + Z.of_nat n) by lia.
      f_equal. f_equal. lia.
    + lia.
    + done.
    + apply Hnoise. lia.
    + intros it v Hit Hv. apply (Hcells it (0 + Z.of_nat n)); [done|lia|done].
Qed.

Lemma body_groups_length (self : Ionogram Z) (amp : ndarray Z) :
  Forall (fun g => length g = 4%nat) (body_groups self amp).
Proof.
  apply Forall_forall. intros g Hg. unfold body_groups in Hg.
  apply list_elem_of_bind in Hg as (ifn & Hg & _).
  unfold cluster_groups in Hg.
  apply elem_of_app in Hg as [Hg|Hg].
  - apply elem_of_cons in Hg as [->|Hg]; [done|].
    apply list_elem_of_singleton in Hg as ->. done.
  - apply list_elem_of_bind in Hg as (it & Hg & _). unfold cell_groups in Hg.
    destruct (cells amp !! (it, ifn)); [|by apply elem_of_nil in Hg].
    apply list_elem_of_singleton in Hg as ->. done.
Qed.

Lemma column_echoes_elem (amp : ndarray Z) nh ifn k e :
  e ∈ column_echoes amp nh ifn k
  ↔ echo_freq e = k ∧ 0 ≤ echo_height e < nh
    ∧ cells amp !! (echo_height e, ifn) = Some (echo_amp e).
Proof.
  unfold column_echoes. rewrite list_elem_of_bind. split.
  - intros (it & He & Hit). apply elem_of_seqZ in Hit.
    destruct (cells amp !! (it, ifn)) as [v|] eqn:E;
      [|by apply elem_of_nil in He].
    apply list_elem_of_singleton in He as ->.
    unfold echo_freq, echo_height, echo_amp. simpl.
    split; [done|]. split; [lia|done].
  - intros (Hk & Hh & Hc). exists (echo_height e). split.
    + rewrite Hc. apply list_elem_of_singleton.
      destruct e as [[f h] v]. unfold echo_freq in Hk. simpl in *. by subst.
    + apply elem_of_seqZ. lia.
Qed.

Lemma column_echoes_NoDup (amp : ndarray Z) nh ifn k :
  NoDup (column_echoes amp nh ifn k).
Proof.
  unfold column_echoes. apply NoDup_bind.
  - intros it1 it2 e _ _ H1 H2.
    destruct (cells amp !! (it1, ifn)); [|by apply elem_of_nil in H1].
    destruct (cells amp !! (it2, ifn)); [|by apply elem_of_nil in H2].
    apply list_elem_of_singleton in H1, H2. congruence.
  - intros it _. destruct (cells amp !! (it, ifn));
      [apply NoDup_singleton|apply NoDup_nil_2].
  - apply NoDup_seqZ.
Qed.

(** Encoding an encodable Record and decoding the bytes. *)
Lemma codec_spec (R : Ionogram Z) :
  encodable R →
  ∃ R' amp body,
    get_ionogram false R = (R', Ok amp)
    ∧ write_body R' amp [] = (body, Ok tt)
    ∧ noise (decode body) = noise R
    ∧ echoes (decode body) ≡ₚ echoes R.
Proof.
  intros (Hcache & Hnf & Hnh & Hlen & Hnoise & Hnd & Hes).
  set (nh := nheights R) in *. set (nf := nfrequences R) in *.
  set (m := mk_ndarray nh nf (fill_cells nh (echoes R) ∅)).
  set (R' := set_ionogram_matrix (Some m) R).
  assert (get_ionogram false R = (R', Ok m)) as Hget.
  { unfold get_ionogram. rewrite Hcache. apply recalc_matrix_in; [lia..|].
    eapply Forall_impl; [exact Hes|]. intros e (Hin & _) _. exact Hin. }
  assert (∀ h f v, cells m !! (h, f) = Some v ↔ (f, h, v) ∈ echoes R) as Hm.
  { intros h f v. subst m. cbn [cells]. rewrite fill_cells_unique by done.
    split; [by intros [? _]|]. intros Hin. split; [done|].
    rewrite Forall_forall in Hes. destruct (Hes _ Hin) as ((Hh & _) & _).
    unfold echo_height in Hh. simpl in Hh. fold nh in Hh. lia. }
  assert (∀ it ifn v, cells m !! (it, ifn) = Some v →
            0 ≤ v < 32768 ∧ it ≠ 1) as Hcell.
  { intros it ifn v Hc. apply Hm in Hc. rewrite Forall_forall in Hes.
    destruct (Hes _ Hc) as (_ & H1 & Hv). done. }
  assert (∀ ifn, 0 ≤ ifn < nf → 0 ≤ noise_value R' ifn < 32768) as Hnv.
  { intros ifn Hi. unfold noise_value. cbn [noise R' set_ionogram_matrix].
    destruct (noise R !! Z.to_nat ifn) as [e|] eqn:E; [|lia].
    by destruct (Hnoise _ _ E). }
  assert (write_body R' m [] = (concat (body_groups R' m), Ok tt)) as Hw.
  { rewrite write_body_groups; [done|..];
      cbn [nfrequences nheights noise R' set_ionogram_matrix nrows ncols m];
      fold nh nf; try lia.
    - intros i e He _. destruct (Hnoise _ _ He). lia.
    - intros it ifn v _ _ Hc. destruct (Hcell it ifn v Hc). lia. }
  exists R', m, (concat (body_groups R' m)).
  split; [done|]. split; [done|].
  assert (foldl samples_step (-1, [], []) (body_groups R' m)
          = (Z.of_nat (Z.to_nat nf) - 1,
             (fun ifn => (ifn, noise_value R' ifn))
               <$> seqZ 0 (Z.of_nat (Z.to_nat nf)),
             seqZ 0 (Z.of_nat (Z.to_nat nf)) ≫= fun ifn =>
               column_echoes m (nheights R') ifn ifn)) as Hfold.
  { unfold body_groups, range, range2.
    cbn [nfrequences R' set_ionogram_matrix]. fold nf.
    replace (nf - 0) with (Z.of_nat (Z.to_nat nf)) by lia.
    apply decode_body_groups.
    - lia.
    - cbn [nheights R' set_ionogram_matrix]. fold nh. lia.
    - intros ifn Hi. apply Hnv. lia.
    - intros it ifn v _ _ Hc. exact (Hcell it ifn v Hc). }
  pose proof (decode_samples (concat (body_groups R' m))) as Hd.
  cbv zeta in Hd.
  rewrite groups_concat, Hfold in Hd by apply body_groups_length.
  cbn [fst snd] in Hd. injection Hd as Hdn Hde.
  split.
  - rewrite Hdn. apply list_eq. intros i.
    rewrite list_lookup_fmap.
    destruct (decide (i < Z.to_nat nf)%nat) as [Hi|Hi].
    + rewrite lookup_seqZ_lt by lia. cbn [fmap option_fmap option_map].
      unfold noise_value. cbn [noise R' set_ionogram_matrix].
      destruct (lookup_lt_is_Some_2 (noise R) i) as [e He]; [lia|].
      replace (Z.to_nat (0 + Z.of_nat i)) with i by lia.
      rewrite He. destruct (Hnoise _ _ He) as [Hi1 _].
      destruct e as [f v]. simpl in *. subst f.
      first [done | do 2 f_equal; lia].
    + rewrite lookup_seqZ_ge by lia.
      rewrite lookup_ge_None_2 by lia. done.
  - rewrite Hde. apply NoDup_Permutation.
    + apply NoDup_bind.
      * intros f1 f2 e _ _ H1 H2.
        apply column_echoes_elem in H1 as (H1 & _).
        apply column_echoes_elem in H2 as (H2 & _). congruence.
      * intros f _. apply column_echoes_NoDup.
      * apply NoDup_seqZ.
    + by apply NoDup_fmap_1 with fst.
    + intros [[f h] v]. rewrite list_elem_of_bind. split.
      * intros (ifn & He & _). apply column_echoes_elem in He
          as (Hf & _ & Hc).
        unfold echo_freq, echo_height, echo_amp in *. simpl in *. subst ifn.
        by apply Hm.
      * intros Hin. exists f. rewrite Forall_forall in Hes.
        destruct (Hes _ Hin) as ((Hh & Hf) & _).
        unfold echo_freq, echo_height in *. simpl in *. split.
        -- apply column_echoes_elem.
           unfold echo_freq, echo_height, echo_amp. simpl.
           split; [done|]. cbn [nheights R' set_ionogram_matrix].
           split; [done|]. by apply Hm.
        -- apply elem_of_seqZ. fold nf in Hf. lia.
Qed.

(** X14. Round trip of the body. For an encodable Record,
    [get_ionogram] and the writing loops of [writeion] succeed, and
    decoding the bytes they produce gives back the noise vector entry for
    entry and the echoes up to order. *)
Theorem codec_roundtrip (R : Ionogram Z) :
  encodable R →
  ∃ R' amp body,
    get_ionogram false R = (R', Ok amp)
    ∧ write_body R' amp [] = (body, Ok tt)
    ∧ noise (decode body) = noise R
    ∧ echoes (decode body) ≡ₚ echoes R.
Proof. exact (codec_spec R). Qed.

Lemma codec_roundtrip_witness :
  ∃ R' amp body,
    get_ionogram false rec_scenario = (R', Ok amp)
    ∧ write_body R' amp [] = (body, Ok tt)
    ∧ noise (decode body) = noise rec_scenario
    ∧ echoes (decode body) ≡ₚ echoes rec_scenario.
Proof.
  apply codec_roundtrip. unfold encodable.
  split; [done|]. split; [done|]. split; [done|]. split; [done|].
  split.
  - intros [|[|i]] e He; simpl in He; try done.
    injection He as <-. simpl. lia.
  - split; [apply NoDup_singleton|].
    apply Forall_singleton. unfold cell_in, echo_height, echo_freq, echo_amp.
    simpl. lia.
Defined.

(** ** [writeion] on the file system *)









(** ** [readion_binary] *)

Lemma find_delimeter_Some i0 l i :
  find_delimeter i0 l = Some i ↔
  ∃ j, i = (i0 + j)%nat
       ∧ take 4 (drop j l) = delimeter
       ∧ ∀ j', (j' < j)%nat → take 4 (drop j' l) ≠ delimeter.
Proof.
  revert i0. induction l as [|b l IH]; intros i0.
  - simpl. split; [done|]. intros (j & _ & Hj & _).
    by rewrite drop_nil in Hj.
  - cbn [find_delimeter]. case_bool_decide as Hd.
    + split.
      * intros [= <-]. exists 0%nat. rewrite drop_0.
        split; [lia|]. split; [done|]. intros; lia.
      * intros (j & -> & Hj & Hmin). destruct j as [|j]; [f_equal; lia|].
        exfalso. apply (Hmin 0%nat); [lia|]. by rewrite drop_0.
    + rewrite IH. split.
      * intros (j & -> & Hj & Hmin). exists (S j).
        split; [lia|]. split; [done|].
        intros [|j'] Hlt; [by rewrite drop_0|]. apply Hmin. lia.
      * intros (j & -> & Hj & Hmin). destruct j as [|j].
        -- by rewrite drop_0 in Hj.
        -- exists j. split; [lia|]. split; [done|].
           intros j' Hlt. apply (Hmin (S j')). lia.
Qed.

Lemma find_delimeter_None i0 l :
  find_delimeter i0 l = None ↔ ∀ j, take 4 (drop j l) ≠ delimeter.
Proof.
  revert i0. induction l as [|b l IH]; intros i0.
  - simpl. split; [|done]. intros _ j. by rewrite drop_nil.
  - cbn [find_delimeter]. case_bool_decide as Hd.
    + split; [done|]. intros Hall. exfalso. apply (Hall 0%nat).
      by rewrite drop_0.
    + rewrite IH. split.
      * intros Hall [|j]; [by rewrite drop_0|]. apply Hall.
      * intros Hall j. apply (Hall (S j)).
Qed.

(** A passport without zero byte is cut off exactly. *)
Lemma split_file_exact (p body : list byte) :
  x00 ∉ p → split_file (p ++ delimeter ++ body) = (p, body).
Proof.
  intros Hp. unfold split_file.
  assert (find_delimeter 0 (p ++ delimeter ++ body) = Some (length p)) as ->.
  { apply find_delimeter_Some. exists (length p). split; [done|]. split.
    - by rewrite drop_app_length.
    - intros j Hj Heq.
      destruct (lookup_lt_is_Some_2 p j Hj) as [b Hb].
      assert (b ≠ x00) as Hne.
      { intros ->. apply Hp. by eapply list_elem_of_lookup_2. }
      apply Hne.
      assert (take 4 (drop j (p ++ delimeter ++ body)) !! 0%nat = Some b)
        as Hl.
      { rewrite lookup_take_lt by lia. rewrite lookup_drop, Nat.add_0_r.
        by rewrite lookup_app_l. }
      rewrite Heq in Hl. simpl in Hl. congruence. }
  rewrite take_app_length.
  rewrite drop_app_add. done.
Qed.

Lemma np_max_spec (l : list Z) m :
  np_max l = Ok m → m ∈ l ∧ ∀ x, x ∈ l → x ≤ m.
Proof.
  destruct l as [|x l]; [done|]. simpl. intros [= <-].
  revert x. induction l as [|y l IH]; intros x; simpl.
  - split; [by left|]. intros z Hz. apply list_elem_of_singleton in Hz. lia.
  - destruct (IH (Z.max x y)) as [Hin Hmax]. split.
    + apply elem_of_cons in Hin as [Heq|Hin].
      * rewrite Heq. destruct (Z.max_spec x y) as [[_ ->]|[_ ->]].
        -- right. by left.
        -- by left.
      * right. by right.
    + intros z Hz. apply elem_of_cons in Hz as [->|Hz].
      * specialize (Hmax (Z.max x y)). pose proof (Hmax ltac:(by left)). lia.
      * apply elem_of_cons in Hz as [->|Hz].
        -- specialize (Hmax (Z.max x y)). pose proof (Hmax ltac:(by left)).
           lia.
        -- apply Hmax. by right.
Qed.

Lemma np_max_empty l e : np_max l = Raise e → l = [] ∧ e = IndexError.
Proof. destruct l; [by intros [= <-]|done]. Qed.

Lemma samples_step_prefix g k ns0 es0 ns es :
  samples_step (k, ns0 ++ ns, es0 ++ es) g
  = let v := samples_step (k, ns, es) g in
    (v.1.1, ns0 ++ v.1.2, es0 ++ v.2).
Proof.
  unfold samples_step. destruct (is_header g); [done|].
  destruct (from_bytes (drop 2 g) =? 1); simpl; by rewrite app_assoc.
Qed.

Lemma samples_fold_prefix gs k ns0 es0 ns es :
  foldl samples_step (k, ns0 ++ ns, es0 ++ es) gs
  = let v := foldl samples_step (k, ns, es) gs in
    (v.1.1, ns0 ++ v.1.2, es0 ++ v.2).
Proof.
  revert k ns es. induction gs as [|g gs IH]; intros k ns es; [done|].
  cbn [foldl]. rewrite samples_step_prefix. cbv zeta.
  destruct (samples_step (k, ns, es) g) as [[k' ns'] es']. apply IH.
Qed.

(** [__parse_ionogram] appends to what the object holds. *)
Lemma parse_ionogram_appends self :
  noise (parse_ionogram self).1
  = noise self ++ noise (decode (data_ionogram self))
  ∧ echoes (parse_ionogram self).1
    = echoes self ++ echoes (decode (data_ionogram self)).
Proof.
  pose proof (decode_samples (data_ionogram self)) as Hd. cbv zeta in Hd.
  injection Hd as -> ->.
  unfold parse_ionogram. rewrite parse_loop_groups. cbn [fst].
  pose proof (samples_of_foldl (groups (data_ionogram self))
                (mk_parse_state (-1) None self [])) as Hs.
  unfold samples_of in Hs at 1. cbn [ps_ifn_ ps_self] in Hs.
  change (samples_of (mk_parse_state (-1) None self []))
    with ((-1, noise self, echoes self) : samples) in Hs.
  pose proof (samples_fold_prefix (groups (data_ionogram self)) (-1)
                (noise self) (echoes self) [] []) as Hp.
  rewrite !app_nil_r in Hp. rewrite Hp in Hs. cbv zeta in Hs.
  injection Hs as _ Hn He. done.
Qed.

Lemma parse_passport_frame {A} scan (self : Ionogram A) :
  let s1 := (parse_passport scan self).1 in
  noise s1 = noise self ∧ echoes s1 = echoes self
  ∧ data_passport s1 = data_passport self
  ∧ data_ionogram s1 = data_ionogram self
  ∧ ionogram_loaded s1 = ionogram_loaded self.
Proof.
  unfold parse_passport, io_bind, io_get, io_lift, io_modify.
  destruct (scan _ _) as [p [[]|e]]; [|done].
  cbn [parameters set_parameters].
  destruct (p_freq_step p =? 0); [done|].
  cbn [parameters set_nfrequences set_first_delay].
  destruct (p_chirp_rate p =? 0); [done|].
  by case_bool_decide.
Qed.

Lemma group_step_frame g st :
  let s := ps_self st in
  let s' := ps_self (group_step g st) in
  data_passport s' = data_passport s
  ∧ data_ionogram s' = data_ionogram s
  ∧ ionogram_loaded s' = ionogram_loaded s.
Proof.
  unfold group_step. destruct (is_header g); [done|]. simpl.
  by destruct (from_bytes (drop 2 g) =? 1).
Qed.

Lemma parse_ionogram_frame self :
  let s' := (parse_ionogram self).1 in
  data_passport s' = data_passport self
  ∧ data_ionogram s' = data_ionogram self
  ∧ ionogram_loaded s' = ionogram_loaded self.
Proof.
  unfold parse_ionogram. rewrite parse_loop_groups. cbn [fst].
  generalize (groups (data_ionogram self)) as gs.
  assert (∀ gs st,
            let s := ps_self st in
            let s' := ps_self (foldl (fun st g => group_step g st) st gs) in
            data_passport s' = data_passport s
            ∧ data_ionogram s' = data_ionogram s
            ∧ ionogram_loaded s' = ionogram_loaded s) as Hfold.
  { induction gs as [|g gs IH]; intros st; [done|]. cbn [foldl].
    destruct (IH (group_step g st)) as (-> & -> & ->).
    apply group_step_frame. }
  intros gs. apply (Hfold gs (mk_parse_state (-1) None self [])).
Qed.

Lemma readion_binary_unfold scan data self :
  let s0 := set_data (split_file data).1 (split_file data).2 self in
  readion_binary scan data self
  = match parse_passport scan s0 with
    | (s1, Raise e) => (s1, Raise e)
    | (s1, Ok _) =>
        let s2 := (parse_ionogram s1).1 in
        match np_max (echo_height <$> echoes s2) with
        | Raise e => (s2, Raise e)
        | Ok imax =>
            (set_ionogram_loaded true
               (set_dheight
                  (Some (match np_truediv (maxheight s2) imax with
                         | Fin q => Fin (q / 1000)
                         | x => x
                         end))
                  (set_nheights (imax + 1)
                     (set_imaxheight (NpInt imax) s2))), Ok tt)
        end
    end.
Proof.
  cbv zeta. unfold readion_binary.
  unfold io_bind at 1. unfold io_modify at 1.
  assert (match find_delimeter 0 data with
          | Some i => set_data (take i data) (drop (i + 4) data) self
          | None => set_data (take (length data - 1) data) (drop 3 data) self
          end = set_data (split_file data).1 (split_file data).2 self) as ->.
  { unfold split_file. by destruct (find_delimeter 0 data). }
  unfold io_bind at 1.
  destruct (parse_passport scan _) as [s1 [[]|e]]; [|done].
  unfold io_bind at 1.
  pose proof (parse_ionogram_total s1) as Ht.
  destruct (parse_ionogram s1) as [s2 r]. simpl in Ht. subst r.
  unfold io_bind, io_get, io_lift, io_modify. cbn [fst].
  by destruct (np_max _).
Qed.

(** X16. Where [readion_binary] cuts the file, whatever happens
    afterwards. If the file is a passport without zero byte, four zero
    bytes and a body, the object keeps exactly that passport and that
    body. If the file has no four consecutive zero bytes at all, nothing
    is reported: the passport is the file less its last byte and the body
    is the file from offset 3. *)
Theorem readion_binary_split scan (data : list byte) (self : Ionogram Z) :
  let s' := (readion_binary scan data self).1 in
  (∀ p body, x00 ∉ p → data = p ++ delimeter ++ body →
     data_passport s' = p ∧ data_ionogram s' = body)
  ∧ ((∀ j, take 4 (drop j data) ≠ delimeter) →
     data_passport s' = take (length data - 1) data
     ∧ data_ionogram s' = drop 3 data).
Proof.
  cbv zeta.
  assert (data_passport (readion_binary scan data self).1
            = (split_file data).1
          ∧ data_ionogram (readion_binary scan data self).1
            = (split_file data).2) as [Hp Hi].
  { rewrite readion_binary_unfold. cbv zeta.
    set (s0 := set_data _ _ self).
    destruct (parse_passport_frame scan s0) as (_ & _ & Hp1 & Hi1 & _).
    destruct (parse_passport scan s0) as [s1 [[]|e]]; [|done].
    destruct (parse_ionogram_frame s1) as (Hp2 & Hi2 & _).
    simpl in Hp1, Hi1.
    destruct (np_max _); simpl; split; congruence. }
  rewrite Hp, Hi. split.
  - intros p body Hz ->. by rewrite split_file_exact.
  - intros Hno. apply find_delimeter_None with (i0 := 0%nat) in Hno.
    unfold split_file. by rewrite Hno.
Qed.

Lemma readion_binary_split_witness :
  data_ionogram (readion_binary sample_scan ([x41] ++ delimeter ++ [x42])
                   init).1 = [x42].
Proof.
  refine (proj2 (proj1 (readion_binary_split sample_scan
                          ([x41] ++ delimeter ++ [x42]) init)
                   [x41] [x42] _ eq_refl)).
  intros Hin. apply list_elem_of_singleton in Hin. discriminate.
Defined.

(** The Record left by a successful load. *)
Lemma readion_binary_spec scan (data : list byte) (s' : Ionogram Z) :
  readion_binary scan data init = (s', Ok tt) →
  ionogram_loaded s' = true
  ∧ noise s' = noise (decode (data_ionogram s'))
  ∧ echoes s' = echoes (decode (data_ionogram s'))
  ∧ ∃ imax,
      imaxheight s' = NpInt imax
      ∧ nheights s' = imax + 1
      ∧ (∃ e, e ∈ echoes s' ∧ echo_height e = imax)
      ∧ ∀ e, e ∈ echoes s' → 0 ≤ echo_height e < nheights s'.
Proof.
  rewrite readion_binary_unfold. cbv zeta.
  set (s0 := set_data _ _ init).
  destruct (parse_passport_frame scan s0) as (Hn1 & He1 & _ & Hi1 & _).
  destruct (parse_passport scan s0) as [s1 [[]|e]]; [|done].
  destruct (parse_ionogram_frame s1) as (_ & Hi2 & _).
  destruct (parse_ionogram_appends s1) as [Hn2 He2].
  simpl in Hn1, He1, Hi1. rewrite Hn1 in Hn2. rewrite He1 in He2.
  simpl in Hn2, He2.
  destruct (np_max _) as [imax|e] eqn:Hmax; [|done].
  intros [= <-]. cbn.
  apply np_max_spec in Hmax as [Hin Hle].
  apply list_elem_of_fmap in Hin as (emax & -> & Hin).
  rewrite Hi2. split; [done|]. split; [done|]. split; [done|].
  exists (echo_height emax). split; [done|]. split; [done|].
  split; [by exists emax|]. intros e He.
  split.
  - pose proof (decode_ranges (data_ionogram s1)) as [_ [Hr _]].
    rewrite He2 in He. rewrite Forall_forall in Hr.
    destruct (Hr e He) as (_ & _ & Hh & _). lia.
  - assert (echo_height e ≤ echo_height emax); [|lia].
    apply Hle, list_elem_of_fmap. by exists e.
Qed.

(** X17. What a successful [readion_binary] on a fresh object
    leaves: the loaded flag is set; noise and echoes are those decoded
    from the body; there is at least one echo; [imaxheight] is the
    greatest echo height index (as a numpy integer) and [nheights] is
    that plus one, so that every echo has a height index from 0 to
    [nheights - 1]. *)
Theorem readion_binary_result scan (data : list byte) (s' : Ionogram Z) :
  readion_binary scan data init = (s', Ok tt) →
  ionogram_loaded s' = true
  ∧ noise s' = noise (decode (data_ionogram s'))
  ∧ echoes s' = echoes (decode (data_ionogram s'))
  ∧ ∃ imax,
      imaxheight s' = NpInt imax
      ∧ nheights s' = imax + 1
      ∧ (∃ e, e ∈ echoes s' ∧ echo_height e = imax)
      ∧ ∀ e, e ∈ echoes s' → 0 ≤ echo_height e < nheights s'.
Proof. exact (readion_binary_spec scan data s'). Qed.

Lemma readion_binary_result_witness :
  ionogram_loaded (readion_binary sample_scan sample_file init).1 = true.
Proof.
  assert ((readion_binary sample_scan sample_file init).2 = Ok tt) as H
      by reflexivity.
  exact (proj1 (readion_binary_result sample_scan sample_file _
                  (io_ok_eta _ tt H))).
Defined.

(** X18. A failed load is flagged but not undone. Whenever
    [readion_binary] raises, the loaded flag is what it was before. In
    particular, when the passport is accepted but the body holds no echo
    sample, [IndexError] is raised (the greatest height index of no echo
    is asked for) although the noise samples of the file have already
    been appended to the object. *)
Theorem readion_binary_failure scan (data : list byte) (self : Ionogram Z) :
  let r := readion_binary scan data self in
  let s0 := set_data (split_file data).1 (split_file data).2 self in
  (∀ e, r.2 = Raise e → ionogram_loaded r.1 = ionogram_loaded self)
  ∧ ((parse_passport scan s0).2 = Ok tt →
     echoes self = [] →
     echoes (decode (split_file data).2) = [] →
     r.2 = Raise IndexError
     ∧ noise r.1 = noise self ++ noise (decode (split_file data).2)).
Proof.
  cbv zeta. rewrite readion_binary_unfold. cbv zeta.
  set (s0 := set_data _ _ self).
  destruct (parse_passport_frame scan s0) as (Hn1 & He1 & _ & Hi1 & Hl1).
  destruct (parse_passport scan s0) as [s1 [[]|e]]; simpl in *.
  - destruct (parse_ionogram_frame s1) as (_ & _ & Hl2).
    destruct (parse_ionogram_appends s1) as [Hn2 He2].
    rewrite Hn1, Hi1 in Hn2. rewrite He1, Hi1 in He2.
    destruct (np_max _) as [imax|e] eqn:Hmax; simpl.
    + split; [done|]. intros _ Hes Hed. exfalso.
      rewrite He2, Hes, Hed in Hmax. done.
    + split; [intros; congruence|]. intros _ Hes Hed.
      apply np_max_empty in Hmax as [_ ->]. done.
  - split; [done|]. done.
Qed.

Lemma readion_binary_failure_witness :
  (readion_binary sample_scan (delimeter ++ [x80; x01; x00; x01;
                                             x00; x05; x00; x01]) init).2
  = Raise IndexError.
Proof.
  refine (proj1 (proj2 (readion_binary_failure sample_scan _ init)
                   _ eq_refl _)); reflexivity.
Defined.

(** ** Passport geometry, errors included *)



(** ** [__eq__] beyond the missing attribute *)



(** ** The window jobs in general *)

Lemma for_each_append {X Y} (l : list X) (body : X → io (list Y) unit)
    (f : X → list Y) acc :
  (∀ x acc, x ∈ l → body x acc = (acc ++ f x, Ok tt)) →
  for_each l body acc = (acc ++ (l ≫= f), Ok tt).
Proof.
  revert acc. induction l as [|x l IH]; intros acc Hb.
  - simpl. unfold io_ret. by rewrite app_nil_r.
  - cbn [for_each]. unfold io_bind. rewrite Hb by left.
    rewrite IH by (intros; apply Hb; by right).
    by rewrite bind_cons, app_assoc.
Qed.

Lemma length_bind_const {X Y} (l : list X) (f : X → list Y) n :
  (∀ x, length (f x) = n) → length (l ≫= f) = (length l * n)%nat.
Proof.
  intros Hf. induction l as [|x l IH]; [done|].
  rewrite bind_cons, length_app, Hf, IH. simpl. lia.
Qed.

Lemma for_each_noop {S X} (l : list X) (body : X → io S unit) s :
  (∀ x s, body x s = (s, Ok tt)) → for_each l body s = (s, Ok tt).
Proof.
  intros Hb. rewrite (for_each_pure l body (fun s _ => s)) by done.
  f_equal. induction l; done.
Qed.

Lemma range3_windows dm : 0 < dm → range3 0 60 dm = Ok (windows dm).
Proof.
  intros Hdm. unfold range3, windows.
  rewrite (proj2 (Z.eqb_neq dm 0)) by lia.
  rewrite (proj2 (Z.ltb_lt 0 dm)) by done.
  replace (60 - 0 + dm - 1) with (59 + dm) by lia. done.
Qed.

Lemma main_args_run (y0 m0 d0 y1 m1 d1 dm : Z) acc :
  0 < dm →
  main_args [y0; m0; d0] [y1; m1; d1] dm acc
  = (acc ++ jobs_of y0 m0 d0 y1 m1 d1 dm, Ok tt).
Proof.
  intros Hdm. unfold main_args, jobs_of.
  change (py_index [y0; m0; d0] 0) with (Ok y0).
  change (py_index [y1; m1; d1] 0) with (Ok y1).
  change (py_index [y0; m0; d0] 1) with (Ok m0).
  change (py_index [y1; m1; d1] 1) with (Ok m1).
  change (py_index [y0; m0; d0] 2) with (Ok d0).
  change (py_index [y1; m1; d1] 2) with (Ok d1).
  rewrite range3_windows by done.
  unfold io_bind at 1 2. unfold io_lift at 1 2.
  apply for_each_append. intros year acc1 _.
  unfold io_bind at 1 2. unfold io_lift at 1 2.
  apply for_each_append. intros month acc2 _.
  unfold io_bind at 1 2. unfold io_lift at 1 2.
  apply for_each_append. intros day acc3 _.
  apply for_each_append. intros h acc4 _.
  unfold io_bind at 1. unfold io_lift at 1.
  rewrite (for_each_append _ _
             (fun m => [(year, month, day, h, m, m + dm)])) by done.
  do 2 f_equal.
Qed.

Lemma range2_length a b : length (range2 a b) = Z.to_nat (b - a).
Proof. unfold range2. by rewrite length_seqZ. Qed.

Lemma elem_of_range2 x a b : x ∈ range2 a b ↔ a <= x < b.
Proof. unfold range2. rewrite elem_of_seqZ. lia. Qed.

Lemma windows_length dm : length (windows dm) = Z.to_nat ((59 + dm) / dm).
Proof. unfold windows. by rewrite length_fmap, length_seqZ. Qed.

Lemma elem_of_windows dm m :
  0 < dm → m ∈ windows dm ↔ 0 <= m < 60 ∧ m mod dm = 0.
Proof.
  intros Hdm. unfold windows. rewrite list_elem_of_fmap. split.
  - intros (k & -> & Hk%elem_of_seqZ). split; [|by apply Z.mod_mul; lia].
    pose proof (Z.mul_div_le (59 + dm) dm Hdm) as Hq.
    assert (dm * (k + 1) <= dm * ((59 + dm) / dm)) as Hle
      by (apply Z.mul_le_mono_nonneg_l; lia).
    nia.
  - intros [Hm Hmod]. exists (m / dm). split.
    + rewrite (Z.div_mod m dm) at 1 by lia. lia.
    + apply elem_of_seqZ. split; [apply Z.div_pos; lia|].
      rewrite Z.add_0_l. apply Z.div_lt_upper_bound; [lia|].
      pose proof (Z.mul_succ_div_gt (59 + dm) dm Hdm). nia.
Qed.

(** X21. For dates [y0; m0; d0] and [y1; m1; d1] and a window
    of [dm > 0] minutes the loops of [main] finish without an error and
    append, in order, the jobs of the nested ranges: every year of
    [y0..y1], in it every month number of [m0..m1], in it every day
    number of [d0..d1], every hour and every window start of the hour.
    Their number is the product of the five range lengths, and a tuple
    is a job exactly if its components lie in these ranges, its start
    minute is a multiple of [dm] below 60 and its end is start plus
    [dm]. The month and day ranges are taken from the two dates
    independently of the year and month, so a range with [d1 < d0] or
    [m1 < m0] has no job at all. *)
Theorem main_args_jobs (y0 m0 d0 y1 m1 d1 dm : Z) (acc : list job) :
  0 < dm →
  let jobs := jobs_of y0 m0 d0 y1 m1 d1 dm in
  main_args [y0; m0; d0] [y1; m1; d1] dm acc = (acc ++ jobs, Ok tt)
  ∧ length jobs
    = (Z.to_nat (y1 - y0 + 1) * Z.to_nat (m1 - m0 + 1)
       * Z.to_nat (d1 - d0 + 1) * 24 * Z.to_nat ((59 + dm) / dm))%nat
  ∧ (∀ y m d h ms me,
       (y, m, d, h, ms, me) ∈ jobs
       ↔ y0 <= y <= y1 ∧ m0 <= m <= m1 ∧ d0 <= d <= d1
         ∧ 0 <= h < 24 ∧ (0 <= ms < 60 ∧ ms mod dm = 0) ∧ me = ms + dm)
  ∧ (m1 < m0 ∨ d1 < d0 → jobs = []).
Proof.
  intros Hdm jobs.
  assert (length jobs
    = (Z.to_nat (y1 - y0 + 1) * Z.to_nat (m1 - m0 + 1)
       * Z.to_nat (d1 - d0 + 1) * 24 * Z.to_nat ((59 + dm) / dm))%nat)
    as Hlen.
  { unfold jobs, jobs_of.
    rewrite (length_bind_const _ _
      (Z.to_nat (m1 - m0 + 1) * Z.to_nat (d1 - d0 + 1) * 24
       * Z.to_nat ((59 + dm) / dm))%nat).
    { rewrite range2_length. replace (y1 + 1 - y0) with (y1 - y0 + 1) by lia.
      lia. }
    intros year.
    rewrite (length_bind_const _ _
      (Z.to_nat (d1 - d0 + 1) * 24 * Z.to_nat ((59 + dm) / dm))%nat).
    { rewrite range2_length. replace (m1 + 1 - m0) with (m1 - m0 + 1) by lia.
      lia. }
    intros month.
    rewrite (length_bind_const _ _
      (24 * Z.to_nat ((59 + dm) / dm))%nat).
    { rewrite range2_length. replace (d1 + 1 - d0) with (d1 - d0 + 1) by lia.
      lia. }
    intros day.
    rewrite (length_bind_const _ _ (Z.to_nat ((59 + dm) / dm))).
    { by rewrite range2_length. }
    intros h. by rewrite length_fmap, windows_length. }
  split; [by apply main_args_run|]. split; [done|]. split.
  - intros y m d h ms me. unfold jobs, jobs_of.
    repeat setoid_rewrite list_elem_of_bind.
    split.
    + intros (y' & (m' & (d' & (h' & Hj & Hh) & Hd) & Hm) & Hy).
      apply list_elem_of_fmap in Hj as (ms' & Heq & Hms).
      apply elem_of_range2 in Hy, Hm, Hd, Hh.
      apply (elem_of_windows dm _ Hdm) in Hms.
      simplify_eq. repeat split; lia.
    + intros (Hy & Hm & Hd & Hh & Hms & ->).
      exists y. split; [|apply elem_of_range2; lia].
      exists m. split; [|apply elem_of_range2; lia].
      exists d. split; [|apply elem_of_range2; lia].
      exists h. split; [|apply elem_of_range2; lia].
      apply list_elem_of_fmap. exists ms. split; [done|].
      by apply elem_of_windows.
  - intros Hempty. apply length_zero_iff_nil. rewrite Hlen.
    destruct Hempty.
    + replace (Z.to_nat (m1 - m0 + 1)) with 0%nat by lia. lia.
    + replace (Z.to_nat (d1 - d0 + 1)) with 0%nat by lia. lia.
Qed.

Lemma main_args_jobs_witness :
  0 < 20 ∧ length (jobs_of 2024 1 30 2024 2 2 20) = 0%nat
  ∧ length (jobs_of 2024 1 1 2024 1 2 20) = 144%nat.
Proof.
  split; [lia|].
  pose proof (main_args_jobs 2024 1 30 2024 2 2 20 [] ltac:(lia))
    as (_ & _ & _ & H1).
  pose proof (main_args_jobs 2024 1 1 2024 1 2 20 [] ltac:(lia))
    as (_ & H2 & _).
  split; [by rewrite H1 by (right; lia)|]. rewrite H2. reflexivity.
Defined.

(** X22. The window size is not checked. With [dm = 0]
    the first [range(0, 60, dm)] raises ValueError, provided the date
    ranges are not empty, and no job has been appended; with [dm < 0]
    that range is empty, the loops finish and there is no job. *)
Theorem main_args_bad_window (y0 m0 d0 y1 m1 d1 dm : Z) (acc : list job) :
  dm <= 0 →
  y0 <= y1 → m0 <= m1 → d0 <= d1 →
  main_args [y0; m0; d0] [y1; m1; d1] dm acc
  = (acc, if decide (dm = 0) then Raise ValueError else Ok tt).
Proof.
  intros Hdm Hy Hm Hd. unfold main_args.
  change (py_index [y0; m0; d0] 0) with (Ok y0).
  change (py_index [y1; m1; d1] 0) with (Ok y1).
  change (py_index [y0; m0; d0] 1) with (Ok m0).
  change (py_index [y1; m1; d1] 1) with (Ok m1).
  change (py_index [y0; m0; d0] 2) with (Ok d0).
  change (py_index [y1; m1; d1] 2) with (Ok d1).
  destruct (decide (dm = 0)) as [-> | Hne].
  - assert (∀ a b, a <= b → ∃ l, range2 a (b + 1) = a :: l) as Hr.
    { intros a b Hab. unfold range2.
      replace (b + 1 - a) with (Z.succ (b - a)) by lia.
      rewrite seqZ_cons by lia. eauto. }
    destruct (Hr y0 y1 Hy) as [ly Hly]. destruct (Hr m0 m1 Hm) as [lm Hlm].
    destruct (Hr d0 d1 Hd) as [ld Hld].
    unfold io_bind at 1 2. unfold io_lift at 1 2. rewrite Hly.
    cbn [for_each]. unfold io_bind at 1.
    unfold io_bind at 1 2. unfold io_lift at 1 2. rewrite Hlm.
    cbn [for_each]. unfold io_bind at 1.
    unfold io_bind at 1 2. unfold io_lift at 1 2. rewrite Hld.
    cbn [for_each]. unfold io_bind at 1.
    reflexivity.
  - assert (range3 0 60 dm = Ok []) as Hr3.
    { unfold range3. rewrite (proj2 (Z.eqb_neq dm 0)) by done.
      rewrite (proj2 (Z.ltb_ge 0 dm)) by lia.
      assert ((0 - 60 - dm - 1) / (- dm) < 1)
        by (apply Z.div_lt_upper_bound; lia).
      by rewrite seqZ_nil by lia. }
    rewrite Hr3.
    unfold io_bind at 1 2. unfold io_lift at 1 2.
    apply for_each_noop. intros year acc1.
    unfold io_bind at 1 2. unfold io_lift at 1 2.
    apply for_each_noop. intros month acc2.
    unfold io_bind at 1 2. unfold io_lift at 1 2.
    apply for_each_noop. intros day acc3.
    apply for_each_noop. intros h acc4. reflexivity.
Qed.


Lemma main_args_bad_window_witness :
  main_args [2024; 1; 1] [2024; 1; 2] 0 [] = ([], Raise ValueError)
  ∧ main_args [2024; 1; 1] [2024; 1; 2] (-5) [] = ([], Ok tt).
Proof.
  split.
  - apply (main_args_bad_window 2024 1 1 2024 1 2 0 []); lia.
  - apply (main_args_bad_window 2024 1 1 2024 1 2 (-5) []); lia.
Defined.

(** ** The resolution of a loaded file *)

(** X23. [get_dimension] after a successful load on a fresh
    object: it is 1024 exactly if some echo of the file has a height
    index above 512, and 512 exactly if none has. It is a class of the
    file, not a bound on its heights: with 512 the matrix has at most 513
    rows, with 1024 it has between 514 and 65536 rows. *)
Theorem get_dimension_of_loaded scan (data : list byte) (s' : Ionogram Z) :
  readion_binary scan data init = (s', Ok tt) →
  (get_dimension s' = 1024 ↔ ∃ e, e ∈ echoes s' ∧ 512 < echo_height e)
  ∧ (get_dimension s' = 512 ↔ ∀ e, e ∈ echoes s' → echo_height e ≤ 512)
  ∧ (get_dimension s' = 512 → 1 ≤ nheights s' ≤ 513)
  ∧ (get_dimension s' = 1024 → 514 ≤ nheights s' ≤ 65536).
Proof.
  intros Hload.
  destruct (readion_binary_spec scan data s' Hload)
    as (_ & _ & He & imax & Hi & Hn & (emax & Hemax & Hmax) & Hall).
  pose proof (decode_ranges (data_ionogram s')) as [_ [Hr _]].
  rewrite <- He, Forall_forall in Hr.
  assert (0 ≤ imax < 65536) as Hrange.
  { destruct (Hr emax Hemax) as (_ & _ & Hh & _). lia. }
  unfold get_dimension. rewrite Hi. cbn [height_index_val].
  destruct (Z.gtb_spec imax 512) as [Hgt | Hle].
  - split; [|split; [|split]].
    + split; [|done]. intros _. exists emax. split; [done|lia].
    + split; [done|]. intros H. specialize (H emax Hemax). lia.
    + done.
    + intros _. lia.
  - split; [|split; [|split]].
    + split; [done|]. intros (e & Hin & Hlt).
      specialize (Hall e Hin). lia.
    + split; [|done]. intros _ e Hin. specialize (Hall e Hin). lia.
    + intros _. lia.
    + done.
Qed.

Lemma get_dimension_of_loaded_witness :
  let s' := (readion_binary sample_scan sample_file init).1 in
  get_dimension s' = 512 ↔ ∀ e, e ∈ echoes s' → echo_height e ≤ 512.
Proof.
  assert ((readion_binary sample_scan sample_file init).2 = Ok tt) as H
      by reflexivity.
  exact (proj1 (proj2 (get_dimension_of_loaded sample_scan
           sample_file _ (io_ok_eta _ tt H)))).
Defined.

(** ** Writing a file and reading it back *)


